(** * cornucopia: samplers ([random.py]) and field-of-view transforms ([fov.py])

    A shallow embedding of the two modules and the properties their
    specification states about them.

    - Python integers are [Z]; Python floats are idealised as exact
      rationals [Q] (every float that occurs in the concrete evaluations
      below is a dyadic rational that the idealisation represents exactly).
    - Python objects that are mutated or shared (lists, dicts, sampler
      instances) live in an explicit store; the global generator of the
      [random] module is an explicit stream of raw outcomes.
    - Exceptions are values of [exn]; a computation is a state-and-error
      function [M]. *)

From Stdlib Require Import ZArith QArith Qround Lqa Lia Ascii.
From stdpp Require Import gmap strings list.

Local Open Scope Z_scope.

(** ** Python preliminaries *)

Inductive exn :=
  | ValueError | TypeError | IndexError | KeyError | AttributeError
  | NotImplementedError | ZeroDivisionError.

Inductive result (A : Type) :=
  | Ok (a : A)
  | Raise (e : exn).
Arguments Ok {A} a.
Arguments Raise {A} e.

(** A user argument documented as "[list of] T": one value or a sequence. *)
Inductive arg (A : Type) :=
  | Scalar (a : A)
  | Seq (l : list A).
Arguments Scalar {A} a.
Arguments Seq {A} l.

(** [slice(start, stop)]; [None] is Python's [None] bound. *)
Record slice := Slice { start : option Z; stop : option Z }.

(** Python's resolution of one slice bound against a length [len]:
    negative bounds count from the end, everything is clamped to
    [0 .. len]. *)
Definition clamp_index (len i : Z) : Z :=
  if i <? 0 then Z.max (i + len) 0 else Z.min i len.

(** [slice.indices(len)] for step 1: the half-open window [lo, hi). *)
Definition slice_indices (s : slice) (len : Z) : Z * Z :=
  (from_option (clamp_index len) 0 (start s),
   from_option (clamp_index len) len (stop s)).

(** Number of elements selected by a slice on an axis of extent [len]. *)
Definition slice_length (s : slice) (len : Z) : Z :=
  let '(lo, hi) := slice_indices s len in Z.max (hi - lo) 0.

(** [l[start:stop]] on a list. *)
Definition getslice {A} (s : slice) (l : list A) : list A :=
  let '(lo, hi) := slice_indices s (Z.of_nat (length l)) in
  take (Z.to_nat (hi - lo)) (drop (Z.to_nat lo) l).

(** ** [utils.py]: the list-normalization helper, value view *)

(** Modelled from the spec: [ensure_list] of [utils/py.py] is not part of
    the two modules.  "Given a scalar-or-sequence value and a target
    length, returns a sequence of exactly that length (broadcasting a
    scalar, or validating/truncating an already-matching sequence)";
    shorter sequences are broadcast "by repetition" of their last
    element.  Without a target length the value is only turned into a
    sequence. *)
Definition ensure_list {A} (x : arg A) (size : option nat) : list A :=
  let l := match x with Scalar a => [a] | Seq l => l end in
  match size with
  | None => l
  | Some n =>
      match last l with
      | Some d => take n (l ++ replicate (n - length l) d)
      | None => []
      end
  end.

#[global] Instance result_ret : MRet result := λ A a, Ok a.
#[global] Instance result_bind : MBind result := λ A B k r,
  match r with
  | Ok a => k a
  | Raise e => Raise e
  end.

(** [l[::2]] and [l[1::2]] *)
Fixpoint evens {A} (l : list A) : list A :=
  match l with
  | a :: _ :: l => a :: evens l
  | [a] => [a]
  | [] => []
  end.

Fixpoint odds {A} (l : list A) : list A :=
  match l with
  | _ :: b :: l => b :: odds l
  | _ => []
  end.

(** A Python number given as an amount: [int] or [float]. *)
Inductive number :=
  | Int (z : Z)
  | Float (q : Q).

(** [int(math.ceil(c * s))] for a number [c] and an integer [s]. *)
Definition ceil_mul (c : number) (s : Z) : Z :=
  match c with
  | Int z => z * s
  | Float q => Qceiling (q * inject_Z s)
  end.

(** A number used as a slice bound or a voxel count must be an [int]. *)
Definition as_index (c : number) : result Z :=
  match c with
  | Int z => Ok z
  | Float _ => Raise TypeError
  end.

Fixpoint mapR {A B} (f : A → result B) (l : list A) : result (list B) :=
  match l with
  | [] => Ok []
  | a :: l => b ← f a; bs ← mapR f l; Ok (b :: bs)
  end.

(** ** Python values, the object store and the random source *)

Definition loc := nat.

(** Values.  Lists, dicts and instances are mutable and shared, so a value
    only holds a reference to them; tuples and ranges are immutable.  A
    dense array made by the array engine is a value (shape and entries in
    row-major order): the samplers only ever build fresh ones. *)
#[local] Set Warnings "-register-all".
Inductive val :=
  | VNone
  | VBool (b : bool)
  | VInt (z : Z)
  | VFloat (q : Q)
  | VTuple (vs : list val)
  | VRange (lo hi : Z)
  | VTensor (dims : list Z) (data : list Q)
  | VRef (l : loc).

Inductive cls :=
  | CSampler | CFixed | CUniform | CRandInt | CRandKFrom | CNormal | CLogNormal.

Inductive obj :=
  | OList (vs : list val)
  | ODict (d : gmap string val)
  | OInst (c : cls) (attrs : gmap string val).

(** The store maps the locations allocated so far ([< next]) to objects;
    [entropy] is the stream of raw outcomes the [random] module and the
    array engine will produce from now on. *)
Record world := World {
  heap : gmap loc obj;
  next : loc;
  entropy : nat → N
}.

Definition M (A : Type) : Type := world → result A * world.

#[global] Instance M_ret : MRet M := λ A a w, (Ok a, w).
#[global] Instance M_bind : MBind M := λ A B k m w,
  match m w with
  | (Ok a, w') => k a w'
  | (Raise e, w') => (Raise e, w')
  end.

Definition raise {A} (e : exn) : M A := λ w, (Raise e, w).

Definition alloc (o : obj) : M loc := λ w,
  (Ok (next w),
   {| heap := <[next w := o]> (heap w); next := S (next w);
      entropy := entropy w |}).

Definition load (l : loc) : M obj := λ w,
  match heap w !! l with
  | Some o => (Ok o, w)
  | None => (Raise TypeError, w)
  end.

Definition store (l : loc) (o : obj) : M unit := λ w,
  (Ok (), {| heap := <[l := o]> (heap w); next := next w;
             entropy := entropy w |}).

(** One raw outcome of the generator. *)
Definition draw : M N := λ w,
  (Ok (entropy w 0%nat),
   {| heap := heap w; next := next w;
      entropy := λ i, entropy w (S i) |}).

Fixpoint mapM {A B} (f : A → M B) (l : list A) : M (list B) :=
  match l with
  | [] => mret []
  | a :: l => b ← f a; bs ← mapM f l; mret (b :: bs)
  end.

Fixpoint for_each {A} (l : list A) (body : A → M unit) : M unit :=
  match l with
  | [] => mret ()
  | a :: l => body a;; for_each l body
  end.

Fixpoint foldM {A S} (f : S → A → M S) (s : S) (l : list A) : M S :=
  match l with
  | [] => mret s
  | a :: l => s' ← f s a; foldM f s' l
  end.

Fixpoint repeatM {A} (n : nat) (m : M A) : M (list A) :=
  match n with
  | O => mret []
  | S n => a ← m; l ← repeatM n m; mret (a :: l)
  end.

(** *** Built-in operations *)

Definition as_ref (v : val) : M loc :=
  match v with VRef l => mret l | _ => raise TypeError end.

Definition load_list (l : loc) : M (list val) :=
  o ← load l;
  match o with OList vs => mret vs | _ => raise TypeError end.

Definition load_dict (l : loc) : M (gmap string val) :=
  o ← load l;
  match o with ODict d => mret d | _ => raise TypeError end.

(** [isinstance(v, list)] and [isinstance(v, (list, tuple))] *)
Definition is_list (v : val) : M bool :=
  match v with
  | VRef l => o ← load l; mret (match o with OList _ => true | _ => false end)
  | _ => mret false
  end.

Definition is_list_or_tuple (v : val) : M bool :=
  match v with
  | VTuple _ => mret true
  | _ => is_list v
  end.

(** The elements of an iterable, as [list(v)], [len(v)], [zip] and the
    comprehensions read them. *)
Definition iterate (v : val) : M (list val) :=
  match v with
  | VTuple vs => mret vs
  | VRange lo hi => mret (VInt <$> seqZ lo (hi - lo))
  | VRef l => load_list l
  | _ => raise TypeError
  end.

(** [list(v)]: a new list object. *)
Definition new_list (vs : list val) : M val :=
  l ← alloc (OList vs); mret (VRef l).

(** [dict(theta)]: a new dict with the same entries. *)
Definition dict_copy (theta : val) : M loc :=
  l ← as_ref theta; d ← load_dict l; alloc (ODict d).

Definition dict_getitem (d : loc) (k : string) : M val :=
  m ← load_dict d;
  match m !! k with Some v => mret v | None => raise KeyError end.

Definition dict_setitem (d : loc) (k : string) (v : val) : M unit :=
  m ← load_dict d; store d (ODict (<[k := v]> m)).

Definition dict_keys (d : loc) : M (list string) :=
  m ← load_dict d; mret ((map_to_list m).*1).

(** [l[i]] for a list object and an integer index. *)
Definition list_getitem (l : loc) (i : val) : M val :=
  vs ← load_list l;
  match i with
  | VInt z =>
      let n := Z.of_nat (length vs) in
      let z' := if z <? 0 then z + n else z in
      if (0 <=? z') && (z' <? n)
      then match vs !! Z.to_nat z' with
           | Some v => mret v
           | None => raise IndexError
           end
      else raise IndexError
  | _ => raise TypeError
  end.

(** Truth value of an object. *)
Definition truthy (v : val) : M bool :=
  match v with
  | VNone => mret false
  | VBool b => mret b
  | VInt z => mret (negb (z =? 0))
  | VFloat q => mret (negb (Qeq_bool q 0))
  | VTuple vs => mret (negb (bool_decide (vs = [])))
  | VRange lo hi => mret (lo <? hi)
  | VTensor _ data => mret (negb (forallb (λ q, Qeq_bool q 0) data))
  | VRef l =>
      o ← load l;
      mret (match o with
            | OList vs => negb (bool_decide (vs = []))
            | ODict d => negb (bool_decide (d = ∅))
            | OInst _ _ => true
            end)
  end.

(** Numbers: [int] and [bool] are exact integers, anything mixed with a
    float is a float. *)
Definition as_Q (v : val) : option Q :=
  match v with
  | VInt z => Some (inject_Z z)
  | VBool b => Some (inject_Z (if b then 1 else 0))
  | VFloat q => Some q
  | _ => None
  end.

Definition as_Z (v : val) : option Z :=
  match v with
  | VInt z => Some z
  | VBool b => Some (if b then 1 else 0)
  | _ => None
  end.

Definition arith (fz : Z → Z → Z) (fq : Q → Q → Q) (a b : val) : M val :=
  match as_Z a, as_Z b with
  | Some x, Some y => mret (VInt (fz x y))
  | _, _ =>
      match as_Q a, as_Q b with
      | Some x, Some y => mret (VFloat (fq x y))
      | _, _ => raise TypeError
      end
  end.

Definition py_add : val → val → M val := arith Z.add Qplus.
Definition py_sub : val → val → M val := arith Z.sub Qminus.

(** *** The [random] module *)

(** [random.random()]: a float in [0, 1) with 53 random bits. *)
Definition random_random : M Q :=
  r ← draw; mret (Z.of_N (r mod 2 ^ 53) # 2 ^ 53)%Q.

(** [random.uniform(a, b) = a + (b - a) * random()] *)
Definition random_uniform (args : list val) : M val :=
  match args with
  | [a; b] =>
      match as_Q a, as_Q b with
      | Some a, Some b =>
          u ← random_random; mret (VFloat (a + (b - a) * u)%Q)
      | _, _ => raise TypeError
      end
  | _ => raise TypeError
  end.

(** [random.randint(a, b)]: an integer [N] with [a <= N <= b]; an empty
    range is a [ValueError]. *)
Definition random_randint (args : list val) : M val :=
  match args with
  | [a; b] =>
      match as_Z a, as_Z b with
      | Some a, Some b =>
          if b <? a then raise ValueError
          else r ← draw; mret (VInt (a + Z.of_N r `mod` (b - a + 1)))
      | _, _ => raise TypeError
      end
  | _ => raise TypeError
  end.

(** [random.shuffle(x)], in place:
    [for i in reversed(range(1, len(x))): j = randbelow(i + 1);
     x[i], x[j] = x[j], x[i]]. *)
Fixpoint shuffle_from (x : loc) (i : nat) : M unit :=
  match i with
  | O => mret ()
  | S i' =>
      r ← draw;
      let j := N.to_nat (r mod N.of_nat (S i)) in
      vs ← load_list x;
      match vs !! i, vs !! j with
      | Some a, Some b =>
          store x (OList (<[j := a]> (<[i := b]> vs)));;
          shuffle_from x i'
      | _, _ => raise IndexError
      end
  end.

Definition random_shuffle (x : val) : M unit :=
  l ← as_ref x; vs ← load_list l; shuffle_from l (length vs - 1).

(** *** The array engine, as far as the samplers use it *)

(** Number of entries of a dense array of the given shape. *)
Definition numel (dims : list Z) : option nat :=
  if forallb (λ d, 0 <=? d) dims
  then Some (Z.to_nat (foldr Z.mul 1 dims))
  else None.

Definition torch_full (dims : list Z) (v : val) : M val :=
  match numel dims, as_Q v with
  | Some k, Some q => mret (VTensor dims (replicate k q))
  | None, _ => raise ValueError
  | _, None => raise TypeError
  end.

Definition torch_rand (dims : list Z) : M val :=
  match numel dims with
  | Some k => us ← repeatM k random_random; mret (VTensor dims us)
  | None => raise ValueError
  end.

Definition torch_randint (high : val) (dims : list Z) : M val :=
  match as_Z high, numel dims with
  | Some h, Some k =>
      if h <=? 0 then raise ValueError
      else zs ← repeatM k (r ← draw; mret (inject_Z (Z.of_N r `mod` h)));
           mret (VTensor dims zs)
  | None, _ => raise TypeError
  | _, None => raise ValueError
  end.

Definition tensor_map (f : Q → Q) (t : val) : M val :=
  match t with
  | VTensor dims data => mret (VTensor dims (f <$> data))
  | _ => raise TypeError
  end.

(** [t.mul_(s)] and [t.add_(s)] with a number [s]. *)
Definition mul_ (t s : val) : M val :=
  match as_Q s with
  | Some q => tensor_map (λ x, x * q)%Q t
  | None => raise TypeError
  end.

Definition add_ (t s : val) : M val :=
  match as_Q s with
  | Some q => tensor_map (λ x, x + q)%Q t
  | None => raise TypeError
  end.

(** The standard normal deviate that [random.normalvariate] and
    [torch.randn] derive from a raw outcome: any value may come out, here
    decoded as a signed dyadic rational. *)
Definition std_normal (r : N) : Q :=
  (Z.of_N (r mod 2 ^ 64) - 2 ^ 63 # 2 ^ 32)%Q.

(** The exponential on floats, idealised like the floats themselves: the
    Taylor polynomial of degree 16.  No property below depends on its
    digits. *)
Definition float_exp (q : Q) : Q :=
  (foldr (λ k acc, 1 + q / inject_Z (Z.of_nat k) * acc) 1
     (seq 1 16))%Q.

(** [random.normalvariate(mu, sigma) = mu + z * sigma] *)
Definition random_normalvariate (args : list val) : M val :=
  match args with
  | [mu; sigma] =>
      match as_Q mu, as_Q sigma with
      | Some mu, Some sigma =>
          r ← draw; mret (VFloat (mu + std_normal r * sigma)%Q)
      | _, _ => raise TypeError
      end
  | _ => raise TypeError
  end.

(** [random.lognormvariate(mu, sigma) = exp(normalvariate(mu, sigma))] *)
Definition random_lognormvariate (args : list val) : M val :=
  v ← random_normalvariate args;
  match v with
  | VFloat q => mret (VFloat (float_exp q))
  | _ => raise TypeError
  end.

Definition torch_randn (dims : list Z) : M val :=
  match numel dims with
  | Some k =>
      zs ← repeatM k (r ← draw; mret (std_normal r));
      mret (VTensor dims zs)
  | None => raise ValueError
  end.

Definition exp_ (t : val) : M val := tensor_map float_exp t.

(** *** What the samplers consume from outside the two modules *)

(** [ensure_list_obj] is [ensure_list] of [utils/py.py] acting on stored
    objects.  Whether it builds a new list or works on its argument is not
    settled by the two modules, so the samplers take it as a parameter. *)
Class Externals := {
  ensure_list_obj : val → option Z → M val
}.

(** Modelled from the spec: [ensure_list] of [utils/py.py] on stored
    objects, "returns a sequence of exactly that length": a list, tuple or
    range is read as a sequence, anything else as a scalar, and the
    normalised sequence is returned as a new list. *)
Definition ensure_list_new (v : val) (size : option Z) : M val :=
  x ← match v with
      | VTuple _ | VRange _ _ => vs ← iterate v; mret (Seq vs)
      | VRef _ =>
          b ← is_list v;
          if (b : bool) then vs ← iterate v; mret (Seq vs)
          else mret (Scalar v)
      | _ => mret (Scalar v)
      end;
  new_list (ensure_list x (Z.to_nat <$> size)).

Definition spec_externals : Externals :=
  {| ensure_list_obj := ensure_list_new |}.

(** [copy.deepcopy]: lists are copied recursively into new objects, other
    values are immutable here.  [fuel] bounds the depth of nesting that is
    copied; the number of stored objects always suffices for lists that do
    not contain themselves. *)
Fixpoint deepcopy_fuel (fuel : nat) (v : val) : M val :=
  match fuel, v with
  | S fuel, VRef l =>
      o ← load l;
      match o with
      | OList vs => vs' ← mapM (deepcopy_fuel fuel) vs; new_list vs'
      | _ => mret v
      end
  | _, _ => mret v
  end.

Definition deepcopy (args : list val) : M val :=
  match args with
  | [v] => λ w, deepcopy_fuel (next w) v w
  | _ => raise TypeError
  end.

(** [zip] over all the element lists at once: stops with the shortest. *)
Definition zipn {A} (cols : list (list A)) : list (list A) :=
  match cols with
  | [] => []
  | c :: _ =>
      let n := foldr (λ c m, Nat.min (length c) m) (length c) cols in
      (λ i, omap (λ c : list A, c !! i) cols) <$> seq 0 n
  end.

(** ** [random.py] *)

(** The argument [n] of [__call__]: absent, an [int], or a [list]/[tuple]
    of ints (a shape). *)
Inductive count :=
  | NoCount
  | Count (z : Z)
  | Shape (dims : list Z).

(** [n] as [Sampler.map] receives it, once shapes have been dealt with. *)
Definition count_int (n : count) : option Z :=
  match n with Count z => Some z | _ => None end.

(** [isinstance(n, (list, tuple))] *)
Definition is_shape (n : count) : bool :=
  match n with Shape _ => true | _ => false end.

(** The truth value of [n]: [None], [0] and an empty shape are false. *)
Definition count_truthy (n : count) : bool :=
  match n with
  | NoCount => false
  | Count z => negb (z =? 0)
  | Shape dims => negb (bool_decide (dims = []))
  end.

(** [if n:] for an optional integer. *)
Definition nonzero (n : option Z) : bool :=
  match n with Some z => negb (z =? 0) | None => false end.

Module Sampler.
Section defs.
Context `{Externals}.

(** Instance creation, before [__init__] runs. *)
Definition new (c : cls) : M loc := alloc (OInst c ∅).

(** [object.__getattribute__]: the attributes stored on the instance. *)
Definition getattribute (self : loc) (item : string) : M val :=
  o ← load self;
  match o with
  | OInst _ attrs =>
      match attrs !! item with
      | Some v => mret v
      | None => raise AttributeError
      end
  | _ => raise TypeError
  end.

(** [object.__setattr__] *)
Definition object_setattr (self : loc) (item : string) (value : val)
  : M unit :=
  o ← load self;
  match o with
  | OInst c attrs => store self (OInst c (<[item := value]> attrs))
  | _ => raise TypeError
  end.

Definition _ensure_same_length (theta : val) (nsamples : option Z)
  : M loc :=
  theta ← dict_copy theta;
  keys ← dict_keys theta;
  (if nonzero nsamples then
     for_each keys (λ k,
       v ← dict_getitem theta k;
       v' ← ensure_list_obj v nsamples;
       dict_setitem theta k v')
   else
     values ← mapM (dict_getitem theta) keys;
     flags ← mapM is_list_or_tuple values;
     if existsb id flags then
       nsamples ← foldM (λ nsamples k,
         v ← dict_getitem theta k;
         v' ← ensure_list_obj v None;
         dict_setitem theta k v';;
         vs ← iterate v';
         mret (Z.max nsamples (Z.of_nat (length vs)))) 0 keys;
       for_each keys (λ k,
         v ← dict_getitem theta k;
         v' ← ensure_list_obj v (Some nsamples);
         dict_setitem theta k v')
     else mret ());;
  mret theta.

(** [map(cls, fn, *values, n=None)] *)
Definition map (fn : list val → M val) (values : list val) (n : option Z)
  : M val :=
  values ← (if nonzero n
            then mapM (λ v, ensure_list_obj v n) values
            else mret values);
  match values with
  | [] => raise IndexError
  | v0 :: _ =>
      b ← is_list v0;
      if (b : bool) then
        cols ← mapM iterate values;
        rs ← mapM fn (zipn cols);
        new_list rs
      else fn values
  end.

Definition __getattr__ (self : loc) (item : string) : M val :=
  theta ← getattribute self "theta";
  l ← as_ref theta;
  d ← load_dict l;
  if bool_decide (is_Some (d !! item)) then
    theta' ← _ensure_same_length theta None;
    dict_getitem theta' item
  else raise AttributeError.

(** [self.item]: the instance's own attributes first, [__getattr__] when
    that lookup fails. *)
Definition getattr (self : loc) (item : string) : M val := λ w,
  match getattribute self item w with
  | (Raise AttributeError, w') => __getattr__ self item w'
  | r => r
  end.

Definition __setattr__ (self : loc) (item : string) (value : val)
  : M unit :=
  if bool_decide (item = "theta") then object_setattr self item value
  else
    theta ← getattr self "theta";
    l ← as_ref theta;
    d ← load_dict l;
    if bool_decide (is_Some (d !! item)) then dict_setitem l item value
    else object_setattr self item value.

(** [__init__(self, **theta)] *)
Definition __init__ (self : loc) (theta : gmap string val) : M unit :=
  l ← alloc (ODict theta);
  __setattr__ self "theta" (VRef l).

Definition __call__ (self : loc) (n : count) : M val :=
  raise NotImplementedError.

End defs.
End Sampler.

Module Fixed.
Section defs.
Context `{Externals}.

Definition __init__ (self : loc) (value : val) : M unit :=
  Sampler.__init__ self {[ "value" := value ]}.

Definition make (value : val) : M val :=
  self ← Sampler.new CFixed; __init__ self value;; mret (VRef self).

Definition __call__ (self : loc) (n : count) : M val :=
  match n with
  | Shape dims =>
      value ← Sampler.getattr self "value";
      torch_full dims value
  | _ =>
      value ← Sampler.getattr self "value";
      Sampler.map deepcopy [value] (count_int n)
  end.

End defs.
End Fixed.

Module Uniform.
Section defs.
Context `{Externals}.

(** [__init__(self, *args, **kwargs)] *)
Definition __init__ (self : loc) (args : list val)
    (kwargs : gmap string val) : M unit :=
  let '(min, max) := (VInt 0, VNone) in
  let '(min, max) :=
    match args with
    | [a; b] => (a, b)
    | [a] => (min, a)
    | _ => (min, max)
    end in
  let min := default min (kwargs !! "min") in
  let max := default max (kwargs !! "max") in
  match max with
  | VNone => raise ValueError
  | _ => Sampler.__init__ self (<["max" := max]> {[ "min" := min ]})
  end.

Definition make (args : list val) (kwargs : gmap string val) : M val :=
  self ← Sampler.new CUniform; __init__ self args kwargs;;
  mret (VRef self).

Definition __call__ (self : loc) (n : count) : M val :=
  match n with
  | Shape dims =>
      t ← torch_rand dims;
      mx ← Sampler.getattr self "max";
      mn ← Sampler.getattr self "min";
      d ← py_sub mx mn;
      t ← mul_ t d;
      mn ← Sampler.getattr self "min";
      add_ t mn
  | _ =>
      mn ← Sampler.getattr self "min";
      mx ← Sampler.getattr self "max";
      Sampler.map random_uniform [mn; mx] (count_int n)
  end.

End defs.
End Uniform.

Module RandInt.
Section defs.
Context `{Externals}.

(** [__init__(self, *args, **kwargs)] *)
Definition __init__ (self : loc) (args : list val)
    (kwargs : gmap string val) : M unit :=
  let '(min, max) := (VInt 0, VNone) in
  let '(min, max) :=
    match args with
    | [a; b] => (a, b)
    | [a] => (min, a)
    | _ => (min, max)
    end in
  let min := default min (kwargs !! "min") in
  let max := default max (kwargs !! "max") in
  match max with
  | VNone => raise ValueError
  | _ => Sampler.__init__ self (<["max" := max]> {[ "min" := min ]})
  end.

Definition make (args : list val) (kwargs : gmap string val) : M val :=
  self ← Sampler.new CRandInt; __init__ self args kwargs;;
  mret (VRef self).

Definition __call__ (self : loc) (n : count) : M val :=
  match n with
  | Shape dims =>
      mx ← Sampler.getattr self "max";
      high ← py_add (VInt 1) mx;
      mn ← Sampler.getattr self "min";
      high ← py_sub high mn;
      t ← torch_randint high dims;
      mn ← Sampler.getattr self "min";
      add_ t mn
  | _ =>
      mn ← Sampler.getattr self "min";
      mx ← Sampler.getattr self "max";
      Sampler.map random_randint [mn; mx] (count_int n)
  end.

End defs.
End RandInt.

(** A value passed as the argument [n] of a call. *)
Definition count_of_val (v : val) : M count :=
  match v with
  | VNone => mret NoCount
  | VInt z => mret (Count z)
  | VBool b => mret (Count (if b then 1 else 0))
  | _ => raise TypeError
  end.

(** A value used as the stop bound of a slice. *)
Definition bound_of_val (v : val) : M (option Z) :=
  match v with
  | VNone => mret None
  | VInt z => mret (Some z)
  | VBool b => mret (Some (if b then 1 else 0))
  | _ => raise TypeError
  end.

Module RandKFrom.
Section defs.
Context `{Externals}.

(** [__init__(self, range, k=None, replacement=False)] *)
Definition __init__ (self : loc) (range k replacement : val) : M unit :=
  Sampler.__init__ self ∅;;
  vs ← iterate range;
  range ← new_list vs;
  rep ← truthy replacement;
  kt ← truthy k;
  (if negb rep && kt then
     match as_Q k with
     | Some q =>
         if Qle_bool q (inject_Z (Z.of_nat (length vs))) then mret ()
         else raise ValueError
     | None => raise TypeError
     end
   else mret ());;
  Sampler.__setattr__ self "range" range;;
  Sampler.__setattr__ self "k" k;;
  Sampler.__setattr__ self "replacement" replacement.

Definition make (range k replacement : val) : M val :=
  self ← Sampler.new CRandKFrom; __init__ self range k replacement;;
  mret (VRef self).

(** [1 + RandInt(len(self.range))()], the right operand of
    [self.k or ...] *)
Definition random_k (self : loc) : M val :=
  range ← Sampler.getattr self "range";
  vs ← iterate range;
  sampler ← RandInt.make [VInt (Z.of_nat (length vs))] ∅;
  s ← as_ref sampler;
  r ← RandInt.__call__ s NoCount;
  py_add (VInt 1) r.

(** [self.k or (1 + RandInt(len(self.range))())] *)
Definition k_or_random (self : loc) : M val :=
  k ← Sampler.getattr self "k";
  kt ← truthy k;
  if (kt : bool) then mret k else random_k self.

Definition __call__ (self : loc) (n : count) : M val :=
  k ← k_or_random self;
  (if is_shape n || count_truthy n then raise ValueError else mret ());;
  replacement ← Sampler.getattr self "replacement";
  rep ← truthy replacement;
  if negb rep then
    range ← Sampler.getattr self "range";
    vs ← iterate range;
    range ← new_list vs;
    random_shuffle range;;
    vs ← iterate range;
    stop ← bound_of_val k;
    new_list (getslice (Slice None stop) vs)
  else
    range ← Sampler.getattr self "range";
    vs ← iterate range;
    sampler ← RandInt.make [VInt (Z.of_nat (length vs))] ∅;
    s ← as_ref sampler;
    n ← count_of_val k;
    index ← RandInt.__call__ s n;
    ids ← iterate index;
    rs ← mapM (λ i,
      range ← Sampler.getattr self "range";
      l ← as_ref range;
      list_getitem l i) ids;
    new_list rs.

End defs.
End RandKFrom.

Module Normal.
Section defs.
Context `{Externals}.

(** [__init__(self, mu=0, sigma=1)] *)
Definition __init__ (self : loc) (mu sigma : val) : M unit :=
  Sampler.__init__ self (<["sigma" := sigma]> {[ "mu" := mu ]}).

Definition make (mu sigma : val) : M val :=
  self ← Sampler.new CNormal; __init__ self mu sigma;; mret (VRef self).

Definition __call__ (self : loc) (n : count) : M val :=
  match n with
  | Shape dims =>
      t ← torch_randn dims;
      sigma ← Sampler.getattr self "sigma";
      t ← mul_ t sigma;
      mu ← Sampler.getattr self "mu";
      add_ t mu
  | _ =>
      mu ← Sampler.getattr self "mu";
      sigma ← Sampler.getattr self "sigma";
      Sampler.map random_normalvariate [mu; sigma] (count_int n)
  end.

End defs.
End Normal.

Module LogNormal.
Section defs.
Context `{Externals}.

(** [__init__(self, mu=0, sigma=1)] *)
Definition __init__ (self : loc) (mu sigma : val) : M unit :=
  Sampler.__init__ self (<["sigma" := sigma]> {[ "mu" := mu ]}).

Definition make (mu sigma : val) : M val :=
  self ← Sampler.new CLogNormal; __init__ self mu sigma;;
  mret (VRef self).

Definition __call__ (self : loc) (n : count) : M val :=
  match n with
  | Shape dims =>
      t ← torch_randn dims;
      sigma ← Sampler.getattr self "sigma";
      t ← mul_ t sigma;
      mu ← Sampler.getattr self "mu";
      t ← add_ t mu;
      exp_ t
  | _ =>
      mu ← Sampler.getattr self "mu";
      sigma ← Sampler.getattr self "sigma";
      Sampler.map random_lognormvariate [mu; sigma] (count_int n)
  end.

End defs.
End LogNormal.

(** [f(n)] for a sampler object [f]: dispatch on its class. *)
Definition call `{Externals} (f : val) (n : count) : M val :=
  self ← as_ref f;
  o ← load self;
  match o with
  | OInst CSampler _ => Sampler.__call__ self n
  | OInst CFixed _ => Fixed.__call__ self n
  | OInst CUniform _ => Uniform.__call__ self n
  | OInst CRandInt _ => RandInt.__call__ self n
  | OInst CRandKFrom _ => RandKFrom.__call__ self n
  | OInst CNormal _ => Normal.__call__ self n
  | OInst CLogNormal _ => LogNormal.__call__ self n
  | _ => raise TypeError
  end.

(** [callable(f)]: sampler instances are, plain values are not. *)
Definition callable (f : val) : M bool :=
  match f with
  | VRef l =>
      o ← load l;
      mret (match o with OInst _ _ => true | _ => false end)
  | _ => mret false
  end.

(** ** [fov.py]: region geometry on shapes *)

(** [x.shape] of a channel-first tensor: the leading entry is the channel
    axis, [x.shape[1:]] are the spatial extents, [ndim = x.dim() - 1]. *)
Definition spatial (xshape : list Z) : list Z := tail xshape.
Definition ndim_of (xshape : list Z) : nat := (length xshape - 1)%nat.

Module PatchTransform.

Record t := Make { shape : arg Z; center : arg Q; bound : string }.

(** [__init__(self, shape=64, center=0, bound='dct2', shared=True)] *)
Definition default : t :=
  {| shape := Scalar 64; center := Scalar 0%Q; bound := "dct2" |}.

(** [(c + 1) / 2 * (s - 1)]: relative coordinate to voxel coordinate. *)
Definition voxel_center (c : Q) (s : Z) : Q :=
  ((c + 1) / 2 * inject_Z (s - 1))%Q.

(** The loop [for ss, cc, sv in zip(shape, center, x.shape[1:])];
    it stops with the shortest of the three sequences. *)
Fixpoint resolve (shape : list Z) (center : list Q) (sizes : list Z)
  : list slice * list Z :=
  match shape, center, sizes with
  | ss :: shape, cc :: center, sv :: sizes =>
      let first := Qfloor (cc - inject_Z ss / 2) in
      let pad_first := Z.max 0 (- first) in
      let last := first + ss in
      let pad_last := Z.max 0 (last - sv) in
      let first := Z.max 0 first in
      let last := Z.min sv last in
      let '(crop, padding) := resolve shape center sizes in
      (Slice (Some first) (Some last) :: crop,
       pad_first :: pad_last :: padding)
  | _, _, _ => ([], [])
  end.

Definition get_parameters (self : t) (xshape : list Z)
  : list slice * list Z :=
  let ndim := ndim_of xshape in
  let shape := ensure_list (shape self) (Some ndim) in
  let center := ensure_list (center self) (Some ndim) in
  let center := zip_with voxel_center center (spatial xshape) in
  resolve shape center (spatial xshape).

End PatchTransform.

Module PowerTwoTransform.

Record t := Make { exponent : arg Z; bound : string }.

(** [bigshape = [max(2 ** e, s) for s, e in zip(exponent, shape)]]:
    the comprehension binds [s] to the entry of [exponent] and [e] to
    the entry of [shape]. *)
Definition get_parameters (self : t) (xshape : list Z) : list Z :=
  let shape := spatial xshape in
  let exponent := ensure_list (exponent self) (Some (length shape)) in
  zip_with (fun s e => Z.max (2 ^ e) s) exponent shape.

(** [apply_transform] hands [bigshape] to a centred [PatchTransform]. *)
Definition patch (self : t) (parameters : list Z) : PatchTransform.t :=
  {| PatchTransform.shape := Seq parameters;
     PatchTransform.center := Scalar 0%Q;
     PatchTransform.bound := bound self |}.

End PowerTwoTransform.


(** ** [fov.py]: tensors and the transforms acting on them *)

(** The array engine, as far as the transforms use it: a tensor is its
    shape and its entry at every multi-index inside the shape. *)
Record tensor := Tensor { tshape : list Z; tat : list Z → Q }.

Definition dim (x : tensor) : nat := length (tshape x).

(** A multi-index lies inside a shape. *)
Definition inside (shape idx : list Z) : bool :=
  bool_decide (length idx = length shape) &&
  forallb (λ '(i, s), (0 <=? i) && (i <? s)) (zip idx shape).

(** Two tensors are the same array. *)
Definition tensor_eq (x y : tensor) : Prop :=
  tshape x = tshape y ∧
  ∀ idx, inside (tshape x) idx = true → tat x idx = tat y idx.

(** [x[(Ellipsis, *slices)]]: the slices address the trailing axes, the
    leading axes are kept whole. *)
Definition getitem_ellipsis (slices : list slice) (x : tensor)
  : result tensor :=
  if bool_decide (length slices ≤ dim x)%nat then
    let lead := (dim x - length slices)%nat in
    let slices := replicate lead (Slice None None) ++ slices in
    Ok {| tshape := zip_with slice_length slices (tshape x);
          tat := λ idx,
            tat x (zip_with Z.add idx
                     (zip_with (λ s n, (slice_indices s n).1)
                        slices (tshape x))) |}
  else Raise IndexError.

(** What the boundary-extension primitive synthesises: the entry for a
    position outside the source (given in source coordinates), for a
    boundary mode and a fill value.  The synthesis is outside the two
    modules. *)
Class Boundary := boundary_value : string → Q → tensor → list Z → Q.

(** Modelled from the spec: the sides on which [pad] of
    [utils/padding.py] applies its amounts: "a single amount applied per
    the side policy: pre-only, post-only, or both-equal", or "pre and post
    amounts interleaved per axis" when the side is unset. *)
Definition pad_sides (padding : list Z) (side : option string)
  : result (list (Z * Z)) :=
  match side with
  | None =>
      if Nat.even (length padding)
      then Ok (zip (evens padding) (odds padding))
      else Raise ValueError
  | Some s =>
      if bool_decide (s = "both") then Ok ((λ p, (p, p)) <$> padding)
      else if bool_decide (s = "pre") then Ok ((λ p, (p, 0)) <$> padding)
      else if bool_decide (s = "post") then Ok ((λ p, (0, p)) <$> padding)
      else Raise ValueError
  end.

(** Modelled from the spec: [pad] of [utils/padding.py], the
    boundary-extension primitive: "given an array, a list of (pad_before,
    pad_after) amounts per axis, a named boundary mode, a side policy, and
    a fill value, returns a new array with boundary-synthesized padding".
    The amounts address the trailing axes; the source keeps its place
    between the two paddings of each axis. *)
Definition pad `{Boundary} (x : tensor) (padding : list Z) (mode : string)
    (side : option string) (value : Q) : result tensor :=
  sides ← pad_sides padding side;
  if bool_decide (length sides ≤ dim x)%nat then
    let lead := (dim x - length sides)%nat in
    let sides := replicate lead (0, 0) ++ sides in
    Ok {| tshape := zip_with (λ s '(a, b), s + a + b) (tshape x) sides;
          tat := λ idx,
            let src := zip_with (λ i '(a, _), i - a) idx sides in
            if inside (tshape x) src then tat x src
            else boundary_value mode value x src |}
  else Raise ValueError.

(** [x.flip(axes)]: negative axes count from the end; an axis out of range
    is an [IndexError], a repeated axis is an error of the engine. *)
Definition flip (axes : list Z) (x : tensor) : result tensor :=
  let n := Z.of_nat (dim x) in
  axes ← mapR (λ a,
    let a' := if a <? 0 then a + n else a in
    if (0 <=? a') && (a' <? n) then Ok (Z.to_nat a') else Raise IndexError)
    axes;
  if bool_decide (NoDup axes) then
    Ok {| tshape := tshape x;
          tat := λ idx,
            tat x (imap (λ k i,
                     if bool_decide (k ∈ axes)
                     then default 0 (tshape x !! k) - 1 - i else i) idx) |}
  else Raise ValueError.

Module FlipTransform.

(** [axis]: [None], an [int] or a list of ints. *)
Record t := Make { axis : val }.

Definition apply_transform `{Externals} (self : t) (x : tensor)
  : M tensor :=
  axis ← match axis self with
         | VNone => new_list (VInt <$> seqZ 1 (Z.of_nat (dim x) - 1))
         | axis => mret axis
         end;
  axis ← ensure_list_obj axis None;
  vs ← iterate axis;
  axes ← mapM (λ v, match as_Z v with
                    | Some a => mret a
                    | None => raise TypeError
                    end) vs;
  match flip axes x with
  | Ok y => mret y
  | Raise e => raise e
  end.

End FlipTransform.

Module RandomFlipTransform.

(** [RandomizedTransform.__init__(FlipTransform, dict(axis=axis))]: the
    fields [sample] and [subtransform] of the wrapper; the subtransform
    is [FlipTransform]. *)
Record t := Make { sample : gmap string val }.

Definition __init__ (axis : val) : t := {| sample := {[ "axis" := axis ]} |}.

(** [get_parameters(self, x)], for [x.dim() = xdim]. *)
Definition get_parameters `{Externals} (self : t) (xdim : Z)
  : M FlipTransform.t :=
  let sample := sample self in
  let ndim := xdim - 1 in
  sample ← match sample !! "axis" with
           | Some VNone =>
               s ← RandKFrom.make (VRange (- ndim) 0) VNone (VBool false);
               mret (<["axis" := s]> sample)
           | Some _ => mret sample
           | None => raise KeyError
           end;
  kwargs ← mapM (λ '(k, f),
              c ← callable f;
              if (c : bool) then v ← call f NoCount; mret (k, v)
              else mret (k, f)) (map_to_list sample);
  match kwargs with
  | [(k, v)] =>
      if bool_decide (k = "axis") then mret {| FlipTransform.axis := v |}
      else raise TypeError
  | _ => raise TypeError
  end.

End RandomFlipTransform.

(** [max(a, b)] and [min(a, b)] of a float and an int: the first argument
    unless the second is strictly beyond it. *)
Definition float_max_int (a : Q) (b : Z) : val :=
  if Qle_bool (inject_Z b) a then VFloat a else VInt b.

Definition float_min_int (a : Q) (b : Z) : val :=
  if Qle_bool a (inject_Z b) then VFloat a else VInt b.

Module RandomPatchTransform.

Record t := Make { patch_size : arg Z; bound : string }.

Definition get_parameters `{Externals} (self : t) (xshape : list Z)
  : M (list Z * list val) :=
  let shape := spatial xshape in
  let patch_size := ensure_list (patch_size self) (Some (length shape)) in
  min_center ← mapM (λ '(p, s),
    if s =? 0 then raise ZeroDivisionError
    else mret (float_max_int (inject_Z p / inject_Z s - 1)%Q (-1)))
    (zip patch_size shape);
  max_center ← mapM (λ '(p, s),
    if s =? 0 then raise ZeroDivisionError
    else mret (float_min_int (1 - inject_Z p / inject_Z s)%Q 1))
    (zip patch_size shape);
  center ← mapM (λ '(mn, mx),
    sampler ← Uniform.make [mn; mx] ∅;
    call sampler NoCount) (zip min_center max_center);
  mret (patch_size, center).

(** [apply_transform] builds [PatchTransform(patch_size, center,
    self.bound)] and applies it. *)
Definition patch (self : t) (parameters : list Z * list val)
  : result PatchTransform.t :=
  center ← mapR (λ c, match as_Q c with
                      | Some q => Ok q
                      | None => Raise TypeError
                      end) parameters.2;
  Ok {| PatchTransform.shape := Seq parameters.1;
        PatchTransform.center := Seq center;
        PatchTransform.bound := bound self |}.

End RandomPatchTransform.

(** [self.unit[0] == 'p'] *)
Definition is_pct (unit : string) : result bool :=
  match unit with
  | String c _ => Ok (bool_decide (c = "p"%char))
  | EmptyString => Raise IndexError
  end.

(** [slice(c0, -c1 if c1 else None)] *)
Definition crop_slice (c0 c1 : Z) : slice :=
  Slice (Some c0) (if c1 =? 0 then None else Some (- c1)).

(** [[s for s in x.shape[1:] for _ in range(2)]] *)
Definition shape2 (xshape : list Z) : list Z :=
  s ← spatial xshape; [s; s].

Module CropTransform.

Record t := Make {
  cropping : arg number;
  unit : string;
  side : option string
}.

(** The slices [apply_transform] builds before indexing. *)
Definition slices (self : t) (xshape : list Z) : result (list slice) :=
  let ndim := ndim_of xshape in
  match side self with
  | Some _ =>
      let cropping := ensure_list (cropping self) (Some ndim) in
      pct ← is_pct (unit self);
      let cropping :=
        if (pct : bool)
        then Int <$> zip_with ceil_mul cropping (spatial xshape)
        else cropping in
      cs ← mapR as_index cropping;
      Ok ((λ c, crop_slice c c) <$> (cs : list Z))
  | None =>
      let cropping := ensure_list (cropping self) None in
      let cropping :=
        replicate (Z.to_nat (2 * Z.of_nat ndim - Z.of_nat (length cropping)))
          (Int 0) in
      pct ← is_pct (unit self);
      let cropping :=
        if (pct : bool)
        then Int <$> zip_with ceil_mul cropping (shape2 xshape)
        else cropping in
      cs ← mapR as_index cropping;
      Ok (zip_with crop_slice (evens cs) (odds cs))
  end.

Definition apply_transform (self : t) (x : tensor) : result tensor :=
  cropping ← slices self (tshape x);
  getitem_ellipsis cropping x.

End CropTransform.

Module PadTransform.

Record t := Make {
  padding : arg number;
  unit : string;
  side : option string;
  bound : string;
  value : Q
}.

(** The amounts [apply_transform] hands to [pad]. *)
Definition amounts (self : t) (xshape : list Z) : result (list Z) :=
  let ndim := ndim_of xshape in
  match side self with
  | Some _ =>
      let padding := ensure_list (padding self) (Some ndim) in
      pct ← is_pct (unit self);
      let padding :=
        if (pct : bool)
        then Int <$> zip_with ceil_mul padding (spatial xshape)
        else padding in
      mapR as_index padding
  | None =>
      let padding := ensure_list (padding self) None in
      let padding :=
        replicate (Z.to_nat (2 * Z.of_nat ndim - Z.of_nat (length padding)))
          (Int 0) in
      pct ← is_pct (unit self);
      let padding :=
        if (pct : bool)
        then Int <$> zip_with ceil_mul padding (shape2 xshape)
        else padding in
      mapR as_index padding
  end.

Definition apply_transform `{Boundary} (self : t) (x : tensor)
  : result tensor :=
  padding ← amounts self (tshape x);
  pad x padding (bound self) (side self) (value self).

End PadTransform.

(** ** Reasoning about computations *)

(** [wp m w Q]: running [m] in the world [w] ends, with a value or an
    exception, in a world that satisfies [Q]. *)
Definition wp {A} (m : M A) (w : world) (Q : result A → world → Prop)
  : Prop :=
  Q (m w).1 (m w).2.

(** Every object stored below [n] is the same in [w'] as in [w], and
    nothing was deallocated. *)
Definition keeps (n : loc) (w w' : world) : Prop :=
  (next w ≤ next w')%nat ∧ ∀ l, (l < n)%nat → heap w' !! l = heap w !! l.

(** Every object of [w] is unchanged in [w']. *)
Definition preserves (w w' : world) : Prop := keeps (next w) w w'.

(** [safe n m Q]: from any world with at least [n] objects, [m] leaves the
    objects below [n] as they are, and a value it returns satisfies [Q]. *)
Definition safe {A} (n : loc) (m : M A) (Q : A → Prop) : Prop :=
  ∀ w, (n ≤ next w)%nat →
    keeps n w (m w).2 ∧ ∀ a, (m w).1 = Ok a → Q a.

(** A reference returned by a [safe] computation is to a new object. *)
Definition fresh_ref (n : loc) (v : val) : Prop :=
  match v with VRef l => (n ≤ l)%nat | _ => True end.

(** The helper leaves the objects that exist when it is called as they
    are: it may allocate, it does not write to its argument. *)
Definition helper_allocates_only `{Externals} : Prop :=
  ∀ v size w, preserves w (ensure_list_obj v size w).2.

(** Neither a list nor a tuple. *)
Definition plain (v : val) : Prop :=
  match v with
  | VRef _ | VTuple _ => False
  | _ => True
  end.

(** [range] is a sequence holding the elements [vs] in the world [w]: a
    tuple, a [range] object, or a stored list. *)
Definition sequence_in (w : world) (range : val) (vs : list val) : Prop :=
  match range with
  | VTuple t => vs = t
  | VRange lo hi => vs = VInt <$> seqZ lo (hi - lo)
  | VRef l => (l < next w)%nat ∧ heap w !! l = Some (OList vs)
  | _ => False
  end.

(** [self] is a [RandKFrom] sampler as its constructor leaves it: the
    candidates [vs] in a list of its own, [k] either [None] or an [int],
    and the [replacement] flag. *)
Definition RandKFrom_instance (w : world) (self : loc) (vs : list val)
    (k : val) (rep : bool) : Prop :=
  ∃ attrs lt lr,
    (self < next w)%nat ∧ heap w !! self = Some (OInst CRandKFrom attrs) ∧
    attrs !! "theta" = Some (VRef lt) ∧
    attrs !! "range" = Some (VRef lr) ∧
    attrs !! "k" = Some k ∧
    attrs !! "replacement" = Some (VBool rep) ∧
    (lt < next w)%nat ∧ heap w !! lt = Some (ODict ∅) ∧
    (lr < next w)%nat ∧ heap w !! lr = Some (OList vs) ∧
    (k = VNone ∨ ∃ z, k = VInt z).

(** The world after [extra] more raw outcomes have been consumed and
    objects were only added. *)
Definition later (extra : nat) (w w' : world) : Prop :=
  preserves w w' ∧ ∀ i, entropy w' i = entropy w (extra + i)%nat.

(** The computation ends with a new list that holds a selection from the
    candidates [vs], each taken at most as often as it occurs there. *)
Definition returns_selection (m : M val) (w : world) (vs : list val) : Prop :=
  ∃ l sel, (m w).1 = Ok (VRef l) ∧ heap (m w).2 !! l = Some (OList sel) ∧
           sel ⊆+ vs.

(** A world with no objects yet, over a stream of raw outcomes. *)
Definition initial_world (raw : nat → N) : world :=
  {| heap := ∅; next := 0%nat; entropy := raw |}.

(** [CropTransform(p, side=side)(PadTransform(p, side=side)(x))] with the
    defaults [unit='vox'], [bound='dct2'], [value=0]. *)
Definition pad_then_crop `{Boundary} (p : Z) (side : string) (x : tensor)
  : result tensor :=
  y ← PadTransform.apply_transform
        {| PadTransform.padding := Scalar (Int p);
           PadTransform.unit := "vox";
           PadTransform.side := Some side;
           PadTransform.bound := "dct2";
           PadTransform.value := 0%Q |} x;
  CropTransform.apply_transform
    {| CropTransform.cropping := Scalar (Int p);
       CropTransform.unit := "vox";
       CropTransform.side := Some side |} y.

(** * Properties *)

Example patch_6_4 :
  PatchTransform.get_parameters
    {| PatchTransform.shape := Scalar 4; PatchTransform.center := Scalar 0%Q;
       PatchTransform.bound := "dct2" |} [1; 6]
  = ([Slice (Some 0) (Some 4)], [0; 0]).
Proof. reflexivity. Qed.

(** ** Patch resolution *)

Lemma Qhalf (x : Q) : (x / 2 == x * (1 # 2))%Q.
Proof. reflexivity. Qed.

Lemma Qfloor_lower (x : Q) (z : Z) : (inject_Z z <= x)%Q → z ≤ Qfloor x.
Proof. intros H. rewrite <- (Qfloor_Z z). by apply Qfloor_resp_le. Qed.


(** The sum identity holds for any first index: the two paddings are
    exactly what clamping removes. *)
Lemma clamp_compensates (first ss sv : Z) :
  (Z.min sv (first + ss) - Z.max 0 first)
    + Z.max 0 (- first) + Z.max 0 (first + ss - sv) = ss.
Proof. lia. Qed.



Lemma resolve_lookup (shape : list Z) (center : list Q) (sizes : list Z)
    (i : nat) (ss : Z) (cc : Q) (sv : Z) :
  shape !! i = Some ss → center !! i = Some cc → sizes !! i = Some sv →
  let first := Qfloor (cc - inject_Z ss / 2) in
  let '(crop, padding) := PatchTransform.resolve shape center sizes in
  crop !! i = Some (Slice (Some (Z.max 0 first)) (Some (Z.min sv (first + ss)))) ∧
  padding !! (2 * i)%nat = Some (Z.max 0 (- first)) ∧
  padding !! (2 * i + 1)%nat = Some (Z.max 0 (first + ss - sv)).
Proof.
  revert center sizes i.
  induction shape as [|s0 shape IH]; intros [|c0 center] [|v0 sizes] i;
    try (by destruct i).
  destruct i as [|i]; simpl; intros Hs Hc Hv.
  - simplify_eq.
    by destruct (PatchTransform.resolve shape center sizes).
  - specialize (IH center sizes i Hs Hc Hv). simpl in IH.
    destruct (PatchTransform.resolve shape center sizes) as [crop padding].
    simpl. replace (i + S (i + 0))%nat with (S (2 * i))%nat by lia.
    replace (i + S (i + 0) + 1)%nat with (S (2 * i + 1))%nat by lia.
    simpl. replace (i + (i + 0))%nat with (2 * i)%nat by lia.
      exact IH.
Qed.

Lemma ensure_list_length {A} (x : arg A) (n : nat) :
  match x with Scalar _ => True | Seq l => l ≠ [] end →
  length (ensure_list x (Some n)) = n.
Proof.
  intros Hx. unfold ensure_list.
  set (l := match x with Scalar a => [a] | Seq l => l end).
  assert (l ≠ []) as Hl by (by destruct x).
  destruct (last l) as [d|] eqn:Hd.
  - rewrite length_take, length_app, length_replicate. lia.
  - by apply last_None in Hd.
Qed.

Lemma resolve_length (shape : list Z) (center : list Q) (sizes : list Z) :
  length shape = length sizes → length center = length sizes →
  length (PatchTransform.resolve shape center sizes).1 = length sizes ∧
  length (PatchTransform.resolve shape center sizes).2 = (2 * length sizes)%nat.
Proof.
  revert center sizes.
  induction shape as [|s0 shape IH]; intros [|c0 center] [|v0 sizes];
    simpl; try done.
  intros Hs Hc. destruct (IH center sizes) as [H1 H2]; [lia..|].
  destruct (PatchTransform.resolve shape center sizes); simpl in *. lia.
Qed.

(** Every spatial axis is resolved: one slice and two padding amounts. *)
Lemma patch_parameters_length (self : PatchTransform.t) (xshape : list Z) :
  match PatchTransform.shape self with Scalar _ => True | Seq l => l ≠ [] end →
  match PatchTransform.center self with Scalar _ => True | Seq l => l ≠ [] end →
  length (PatchTransform.get_parameters self xshape).1 = ndim_of xshape ∧
  length (PatchTransform.get_parameters self xshape).2
    = (2 * ndim_of xshape)%nat.
Proof.
  intros Hs Hc. unfold PatchTransform.get_parameters.
  assert (length (spatial xshape) = ndim_of xshape) as Hn.
  { unfold spatial, ndim_of. destruct xshape; simpl; lia. }
  pose proof (resolve_length
    (ensure_list (PatchTransform.shape self) (Some (ndim_of xshape)))
    (zip_with PatchTransform.voxel_center
       (ensure_list (PatchTransform.center self) (Some (ndim_of xshape)))
       (spatial xshape))
    (spatial xshape)) as H.
  rewrite Hn in H. apply H.
  - by rewrite ensure_list_length.
  - rewrite length_zip_with, ensure_list_length by done. lia.
Qed.




(** ** Rules for running computations *)

Lemma run_bind {A B} (m : M A) (k : A → M B) (w : world) :
  (m ≫= k) w =
  match m w with
  | (Ok a, w') => k a w'
  | (Raise e, w') => (Raise e, w')
  end.
Proof. reflexivity. Qed.

Lemma run_bind_ok {A B} (m : M A) (k : A → M B) (w w' : world) (a : A) :
  m w = (Ok a, w') → (m ≫= k) w = k a w'.
Proof. intros Hm. by rewrite run_bind, Hm. Qed.

Lemma run_bind_raise {A B} (m : M A) (k : A → M B) (w w' : world) e :
  m w = (Raise e, w') → (m ≫= k) w = (Raise e, w').
Proof. intros Hm. by rewrite run_bind, Hm. Qed.

Lemma wp_ret {A} (a : A) w Q : Q (Ok a) w → wp (mret a) w Q.
Proof. done. Qed.

Lemma wp_raise {A} e w (Q : result A → world → Prop) :
  Q (Raise e) w → wp (raise e) w Q.
Proof. done. Qed.

Lemma wp_bind {A B} (m : M A) (k : A → M B) w Q :
  wp m w (λ r w', match r with
                  | Ok a => wp (k a) w' Q
                  | Raise e => Q (Raise e) w'
                  end) →
  wp (m ≫= k) w Q.
Proof.
  unfold wp. rewrite run_bind. by destruct (m w) as [[a|e] w'].
Qed.

Lemma bind_assoc {A B C} (m : M A) (k : A → M B) (k' : B → M C) w :
  ((m ≫= k) ≫= k') w = (m ≫= λ a, k a ≫= k') w.
Proof. rewrite !run_bind. by destruct (m w) as [[a|e] w']. Qed.

Lemma wp_bind_assoc {A B C} (m : M A) (k : A → M B) (k' : B → M C) w Q :
  wp (m ≫= λ a, k a ≫= k') w Q = wp ((m ≫= k) ≫= k') w Q.
Proof. unfold wp. by rewrite bind_assoc. Qed.

Lemma wp_mono {A} (m : M A) w (P Q : result A → world → Prop) :
  wp m w P → (∀ r w', P r w' → Q r w') → wp m w Q.
Proof. unfold wp. auto. Qed.

Lemma wp_run {A} (m : M A) w r w' Q : m w = (r, w') → Q r w' → wp m w Q.
Proof. unfold wp. by intros ->. Qed.

Lemma wp_alloc o w Q :
  Q (Ok (next w))
    {| heap := <[next w := o]> (heap w); next := S (next w);
       entropy := entropy w |} →
  wp (alloc o) w Q.
Proof. done. Qed.

Lemma wp_load l o w Q :
  heap w !! l = Some o → Q (Ok o) w → wp (load l) w Q.
Proof. unfold wp, load. by intros ->. Qed.

Lemma wp_store l o w Q :
  Q (Ok ()) {| heap := <[l := o]> (heap w); next := next w;
               entropy := entropy w |} →
  wp (store l o) w Q.
Proof. done. Qed.

Lemma wp_draw w Q :
  Q (Ok (entropy w 0%nat))
    {| heap := heap w; next := next w; entropy := λ i, entropy w (S i) |} →
  wp draw w Q.
Proof. done. Qed.

(** Symbolic execution: one rule per shape of the computation, lookups in
    the store solved by rewriting. *)
Ltac heap_lookup :=
  cbn [heap next entropy];
  repeat first
    [ rewrite lookup_insert_eq
    | rewrite lookup_insert_ne by lia
    | rewrite lookup_empty ];
  try done; try eassumption.

Ltac wp_step :=
  lazymatch goal with
  | |- wp (@mret M M_ret _ _) _ _ => apply wp_ret
  | |- wp (@raise _ _) _ _ => apply wp_raise
  | |- wp (@mbind M M_bind _ _ _ _) _ _ => apply wp_bind
  | |- wp (alloc _) _ _ => apply wp_alloc
  | |- wp (load _) _ _ => eapply wp_load; [heap_lookup|]
  | |- wp (store _ _) _ _ => apply wp_store
  | |- wp draw _ _ => apply wp_draw
  end; cbn beta iota; cbn [heap next entropy].

Ltac wp_steps := repeat (cbn beta iota; wp_step).

(** Apply a rule for a compound computation, at the head of the goal or
    under its first bind. *)
Ltac wp_focus :=
  lazymatch goal with
  | |- wp (@mbind M M_bind _ _ _ _) _ _ => apply wp_bind; wp_focus
  | _ => idtac
  end.

Tactic Notation "wp_apply" uconstr(lem) :=
  wp_focus; eapply lem; cbn beta iota; cbn [heap next entropy].

(** ** Constructors *)

Lemma Qle_bool_inject_Z (a b : Z) :
  Qle_bool (inject_Z a) (inject_Z b) = (a <=? b).
Proof. unfold Qle_bool, inject_Z. simpl. by rewrite !Z.mul_1_r. Qed.

Section constructors.
Context `{Externals}.

Lemma Uniform_no_max (args : list val) (kwargs : gmap string val) w :
  length args ≠ 1%nat → length args ≠ 2%nat → kwargs !! "max" = None →
  (Uniform.make args kwargs w).1 = Raise ValueError.
Proof.
  intros H1 H2 Hkw.
  assert (wp (Uniform.make args kwargs) w (λ r _, r = Raise ValueError))
    as Hwp; [|exact Hwp].
  unfold Uniform.make, Sampler.new. wp_steps.
  unfold Uniform.__init__. rewrite Hkw. cbn [default from_option].
  destruct args as [|a [|b [|c args]]]; simpl in *; try done.
Qed.

Lemma RandInt_no_max (args : list val) (kwargs : gmap string val) w :
  length args ≠ 1%nat → length args ≠ 2%nat → kwargs !! "max" = None →
  (RandInt.make args kwargs w).1 = Raise ValueError.
Proof.
  intros H1 H2 Hkw.
  assert (wp (RandInt.make args kwargs) w (λ r _, r = Raise ValueError))
    as Hwp; [|exact Hwp].
  unfold RandInt.make, Sampler.new. wp_steps.
  unfold RandInt.__init__. rewrite Hkw. cbn [default from_option].
  destruct args as [|a [|b [|c args]]]; simpl in *; try done.
Qed.

(** [Sampler.__init__]: the parameters go to a new dict, the instance
    refers to it. *)
Lemma wp_Sampler_init self c attrs (theta : gmap string val) w Q :
  (self < next w)%nat → heap w !! self = Some (OInst c attrs) →
  Q (Ok ())
    {| heap := <[self := OInst c (<["theta" := VRef (next w)]> attrs)]>
                 (<[next w := ODict theta]> (heap w));
       next := S (next w);
       entropy := entropy w |} →
  wp (Sampler.__init__ self theta) w Q.
Proof.
  intros Hlt Hself HQ. unfold Sampler.__init__. wp_steps.
  unfold Sampler.__setattr__. rewrite bool_decide_eq_true_2 by done.
  unfold Sampler.object_setattr. wp_steps. exact HQ.
Qed.

Lemma iterate_sequence w range vs Q :
  sequence_in w range vs → Q (Ok vs) w → wp (iterate range) w Q.
Proof.
  intros Hseq HQ. destruct range; simpl in Hseq; try done; subst;
    try exact HQ.
  destruct Hseq as [Hl Hvs]. unfold iterate, load_list. wp_steps.
  exact HQ.
Qed.

Lemma sequence_in_keeps w w' range vs :
  sequence_in w range vs → preserves w w' → sequence_in w' range vs.
Proof.
  intros Hseq [Hn Hk]. destruct range; simpl in *; try done.
  destruct Hseq as [Hl Hvs]. split; [lia|]. by rewrite Hk.
Qed.

Lemma RandKFrom_too_many (range : val) (k : Z) (vs : list val) w :
  sequence_in w range vs → Z.of_nat (length vs) < k →
  (RandKFrom.make range (VInt k) (VBool false) w).1 = Raise ValueError.
Proof.
  intros Hseq Hk.
  assert (wp (RandKFrom.make range (VInt k) (VBool false)) w
            (λ r _, r = Raise ValueError)) as Hwp; [|exact Hwp].
  unfold RandKFrom.make, Sampler.new. wp_steps.
  unfold RandKFrom.__init__.
  wp_apply wp_Sampler_init; [lia|by heap_lookup|].
  wp_apply iterate_sequence.
  { eapply sequence_in_keeps; [exact Hseq|].
    split; cbn [heap next]; [lia|]. intros l Hl.
    by rewrite !lookup_insert_ne by lia. }
  unfold new_list, truthy. wp_steps.
  assert ((k =? 0) = false) as -> by lia.
  cbn [negb andb as_Q]. rewrite Qle_bool_inject_Z.
  assert ((k <=? Z.of_nat (length vs)) = false) as -> by lia.
  done.
Qed.

End constructors.

(** C7: configuration errors are raised by the constructors.  [Uniform]
    and [RandInt] built with no positional and no keyword [max] raise
    [ValueError]; [RandKFrom] built with [replacement=False] and an integer
    [k] greater than the number of candidates raises [ValueError].  In each
    case the constructor call itself ends in the exception, so no sampler
    exists that could be called. *)
Theorem config_errors_at_construction `{Externals} :
  (∀ args kwargs w,
     length args ≠ 1%nat → length args ≠ 2%nat → kwargs !! "max" = None →
     (Uniform.make args kwargs w).1 = Raise ValueError) ∧
  (∀ args kwargs w,
     length args ≠ 1%nat → length args ≠ 2%nat → kwargs !! "max" = None →
     (RandInt.make args kwargs w).1 = Raise ValueError) ∧
  (∀ range k vs w,
     sequence_in w range vs → Z.of_nat (length vs) < k →
     (RandKFrom.make range (VInt k) (VBool false) w).1 = Raise ValueError).
Proof.
  split; [|split].
  - apply Uniform_no_max.
  - apply RandInt_no_max.
  - apply RandKFrom_too_many.
Qed.

(** ** Attribute access *)

Section attributes.
Context `{Externals}.

Lemma mapM_dict_getitem (l : loc) (d : gmap string val) w
    (ks : list string) (vs : list val) :
  heap w !! l = Some (ODict d) →
  Forall2 (λ k v, d !! k = Some v) ks vs →
  mapM (dict_getitem l) ks w = (Ok vs, w).
Proof.
  intros Hl Hks. induction Hks as [|k v ks vs Hk _ IH]; [done|].
  simpl. erewrite run_bind_ok; last first.
  { unfold dict_getitem, load_dict, load. rewrite !run_bind, Hl.
    simpl. rewrite Hk. done. }
  by rewrite run_bind, IH.
Qed.

Lemma map_to_list_lookups (d : gmap string val) :
  Forall2 (λ k v, d !! k = Some v) (map_to_list d).*1 (map_to_list d).*2.
Proof.
  assert (Forall (λ kv, d !! kv.1 = Some kv.2) (map_to_list d)) as Hall.
  { apply Forall_forall. intros [k v] Hkv.
    by apply elem_of_map_to_list in Hkv. }
  induction Hall as [|[k v] l Hkv _ IH]; constructor; done.
Qed.

Lemma map_to_list_values_plain (d : gmap string val) :
  map_Forall (λ _ v, plain v) d → Forall plain (map_to_list d).*2.
Proof.
  intros Hd. apply Forall_forall. intros v Hv.
  apply list_elem_of_fmap in Hv as [[k v'] [-> Hkv]].
  apply elem_of_map_to_list in Hkv. by apply (Hd k).
Qed.

Lemma mapM_is_list_plain (vs : list val) w :
  Forall plain vs →
  ∃ flags, mapM is_list_or_tuple vs w = (Ok flags, w) ∧
           existsb id flags = false.
Proof.
  induction 1 as [|v vs Hv _ [flags [IH Hf]]]; [by exists []|].
  exists (false :: flags). split; [|done]. simpl.
  erewrite run_bind_ok; last first.
  { by destruct v. }
  by rewrite run_bind, IH.
Qed.

(** Reading an attribute that the instance itself stores. *)
Lemma wp_getattr_own self item c attrs v w Q :
  heap w !! self = Some (OInst c attrs) → attrs !! item = Some v →
  Q (Ok v) w →
  wp (Sampler.getattr self item) w Q.
Proof.
  intros Hself Hitem HQ. unfold wp, Sampler.getattr.
  unfold Sampler.getattribute, load. rewrite run_bind, Hself. simpl.
  by rewrite Hitem.
Qed.

(** Reading a parameter of a sampler whose parameters are all plain
    values: [__getattr__] copies the dict and returns the entry. *)
Lemma wp_getattr_theta self item c attrs lt d v w Q :
  heap w !! self = Some (OInst c attrs) →
  attrs !! item = None → attrs !! "theta" = Some (VRef lt) →
  (lt < next w)%nat → heap w !! lt = Some (ODict d) →
  d !! item = Some v → map_Forall (λ _ v, plain v) d →
  Q (Ok v) {| heap := <[next w := ODict d]> (heap w);
              next := S (next w); entropy := entropy w |} →
  wp (Sampler.getattr self item) w Q.
Proof.
  intros Hself Hitem Htheta Hlt Hd Hv Hplain HQ.
  unfold wp, Sampler.getattr.
  assert (Sampler.getattribute self item w = (Raise AttributeError, w))
    as ->.
  { unfold Sampler.getattribute, load. rewrite run_bind, Hself. simpl.
    by rewrite Hitem. }
  change (wp (Sampler.__getattr__ self item) w Q).
  unfold Sampler.__getattr__. apply wp_bind.
  unfold Sampler.getattribute. wp_steps. rewrite Htheta. wp_steps.
  unfold as_ref. wp_steps. unfold load_dict. wp_steps.
  rewrite bool_decide_eq_true_2 by (by rewrite Hv).
  wp_steps. unfold Sampler._ensure_same_length. wp_steps.
  unfold dict_copy, as_ref, load_dict. wp_steps.
  unfold dict_keys, load_dict. wp_steps.
  cbn [nonzero]. wp_steps.
  set (w1 := {| heap := <[next w := ODict d]> (heap w);
                next := S (next w); entropy := entropy w |}) in *.
  eapply wp_run.
  { apply (mapM_dict_getitem (next w) d w1); [|apply map_to_list_lookups].
    unfold w1. by heap_lookup. }
  cbn beta iota. wp_steps.
  destruct (mapM_is_list_plain (map_to_list d).*2 w1) as (flags & Hrun & Hf).
  { by apply map_to_list_values_plain. }
  eapply wp_run; [exact Hrun|]. cbn beta iota. rewrite Hf. wp_steps.
  unfold dict_getitem, load_dict. wp_steps.
  { unfold w1. by heap_lookup. }
  wp_steps. rewrite Hv. wp_steps. exact HQ.
Qed.

End attributes.

(** ** Drawing an integer *)

Section randint.
Context `{Externals}.

Lemma bounds_plain (lo hi : val) :
  plain lo → plain hi →
  map_Forall (λ (_ : string) v, plain v)
    (<["max" := hi]> ({[ "min" := lo ]} : gmap string val)).
Proof.
  intros Hlo Hhi. apply map_Forall_insert_2; [done|].
  by apply map_Forall_singleton.
Qed.

Lemma wp_RandInt_make (m : Z) w Q :
  Q (Ok (VRef (next w)))
    {| heap := <[next w := OInst CRandInt {[ "theta" := VRef (S (next w)) ]}]>
                 (<[S (next w) :=
                      ODict (<["max" := VInt m]> {[ "min" := VInt 0 ]})]>
                    (<[next w := OInst CRandInt ∅]> (heap w)));
       next := S (S (next w));
       entropy := entropy w |} →
  wp (RandInt.make [VInt m] ∅) w Q.
Proof.
  intros HQ. unfold RandInt.make, Sampler.new. wp_steps.
  unfold RandInt.__init__. rewrite !lookup_empty. cbn [default from_option].
  wp_apply wp_Sampler_init; [lia|by heap_lookup|].
  wp_steps. rewrite insert_empty. exact HQ.
Qed.

(** [RandInt(lo, hi)()] returns [lo + raw mod (hi - lo + 1)] for the
    next raw outcome; the two parameter reads each leave a copy of the
    parameter dict behind. *)
Lemma wp_RandInt_call (self lt : loc) (lo hi : Z) w Q :
  (self < next w)%nat → (lt < next w)%nat →
  heap w !! self = Some (OInst CRandInt {[ "theta" := VRef lt ]}) →
  heap w !! lt = Some (ODict (<["max" := VInt hi]> {[ "min" := VInt lo ]})) →
  lo ≤ hi →
  Q (Ok (VInt (lo + Z.of_N (entropy w 0%nat) `mod` (hi - lo + 1))))
    {| heap := <[S (next w) :=
                   ODict (<["max" := VInt hi]> {[ "min" := VInt lo ]})]>
                 (<[next w :=
                      ODict (<["max" := VInt hi]> {[ "min" := VInt lo ]})]>
                    (heap w));
       next := S (S (next w));
       entropy := λ i, entropy w (S i) |} →
  wp (RandInt.__call__ self NoCount) w Q.
Proof.
  intros Hself Hlt Hinst Hd Hle HQ. unfold RandInt.__call__.
  wp_apply wp_getattr_theta;
    [exact Hinst|done|done|done|exact Hd| |by apply bounds_plain|].
  { by rewrite lookup_insert_ne, lookup_singleton_eq. }
  wp_apply wp_getattr_theta;
    [by heap_lookup|done|done|lia|by heap_lookup| |by apply bounds_plain|].
  { by rewrite lookup_insert_eq. }
  unfold Sampler.map. cbn [count_int nonzero]. wp_steps.
  unfold is_list. wp_steps. unfold random_randint. cbn [as_Z].
  assert ((hi <? lo) = false) as -> by lia.
  wp_steps. exact HQ.
Qed.

End randint.

(** ** [RandKFrom]: construction *)

Section randkfrom_make.
Context `{Externals}.

(** Setting an attribute that is not a parameter goes to the instance. *)
Lemma wp_setattr_own self item value c attrs lt d w Q :
  item ≠ "theta" →
  heap w !! self = Some (OInst c attrs) →
  attrs !! "theta" = Some (VRef lt) →
  heap w !! lt = Some (ODict d) → d !! item = None →
  Q (Ok ()) {| heap := <[self := OInst c (<[item := value]> attrs)]> (heap w);
               next := next w; entropy := entropy w |} →
  wp (Sampler.__setattr__ self item value) w Q.
Proof.
  intros Hitem Hself Htheta Hlt Hd HQ. unfold Sampler.__setattr__.
  rewrite bool_decide_eq_false_2 by done. apply wp_bind.
  eapply wp_getattr_own; [exact Hself|exact Htheta|].
  unfold as_ref, load_dict. wp_steps.
  rewrite bool_decide_eq_false_2 by (rewrite Hd; by intros [??]).
  unfold Sampler.object_setattr. wp_steps. exact HQ.
Qed.

Lemma wp_RandKFrom_make (range k : val) (rep : bool) (vs : list val) w Q :
  sequence_in w range vs →
  (k = VNone ∨
   ∃ z, k = VInt z ∧ (rep = true ∨ z ≤ Z.of_nat (length vs))) →
  (∀ w', preserves w w' → entropy w' = entropy w →
         RandKFrom_instance w' (next w) vs k rep →
         Q (Ok (VRef (next w))) w') →
  wp (RandKFrom.make range k (VBool rep)) w Q.
Proof.
  intros Hseq Hk HQ. unfold RandKFrom.make, Sampler.new. wp_steps.
  unfold RandKFrom.__init__.
  wp_apply wp_Sampler_init; [lia|by heap_lookup|].
  wp_apply iterate_sequence.
  { eapply sequence_in_keeps; [exact Hseq|].
    split; cbn [heap next]; [lia|]. intros l Hl.
    by rewrite !lookup_insert_ne by lia. }
  unfold new_list. wp_steps. unfold truthy at 1. wp_steps.
  assert (∃ kt, truthy k = mret kt ∧
                (negb rep && kt = true →
                 ∃ z, k = VInt z ∧ z ≤ Z.of_nat (length vs)))
    as (kt & -> & Hkt).
  { destruct Hk as [->|(z & -> & Hz)].
    - exists false. split; [done|]. by rewrite andb_false_r.
    - exists (negb (z =? 0)). split; [done|]. intros Hb. exists z.
      split; [done|]. destruct Hz as [->|Hz]; [done|lia]. }
  wp_steps.
  set (w1 := {| heap := _; next := S (S (S (next w))) |}).
  apply wp_mono with (P := λ r w', r = Ok () ∧ w' = w1).
  { destruct (negb rep && kt) eqn:Hb; [|done].
    destruct Hkt as (z & -> & Hz); [done|]. cbn [as_Q].
    rewrite Qle_bool_inject_Z.
    assert ((z <=? Z.of_nat (length vs)) = true) as -> by lia. done. }
  intros r w' [-> ->]. unfold w1. clear w1.
  wp_apply wp_setattr_own;
    [done|by heap_lookup|by simplify_map_eq|by heap_lookup|done|].
  wp_apply wp_setattr_own;
    [done|by heap_lookup|by simplify_map_eq|by heap_lookup|done|].
  wp_apply wp_setattr_own;
    [done|by heap_lookup|by simplify_map_eq|by heap_lookup|done|].
  wp_steps. apply HQ.
  - split; cbn [heap next]; [lia|]. intros l Hl.
    by rewrite !lookup_insert_ne by lia.
  - done.
  - eexists _, (S (next w)), (S (S (next w))). cbn [heap next].
    split_and!; try lia.
    + by rewrite lookup_insert_eq.
    + by simplify_map_eq.
    + by simplify_map_eq.
    + by simplify_map_eq.
    + by simplify_map_eq.
    + by heap_lookup.
    + by heap_lookup.
    + destruct Hk as [->|(z & -> & _)]; eauto.
Qed.

End randkfrom_make.

(** ** [RandKFrom]: sampling *)

Lemma preserves_refl w : preserves w w.
Proof. by split. Qed.

Lemma preserves_trans w1 w2 w3 :
  preserves w1 w2 → preserves w2 w3 → preserves w1 w3.
Proof.
  intros [Hn1 Hk1] [Hn2 Hk2]. split; [lia|]. intros l Hl.
  rewrite Hk2 by lia. by apply Hk1.
Qed.

Lemma RandKFrom_instance_preserved w w' self vs k rep :
  RandKFrom_instance w self vs k rep → preserves w w' →
  RandKFrom_instance w' self vs k rep.
Proof.
  intros (attrs & lt & lr & Hs & Hself & Hth & Hr & Hk & Hrep & Hlt & Hd
          & Hlr & Hvs & Hkv) [Hn Hkeep].
  exists attrs, lt, lr. rewrite !Hkeep by done. split_and!; try done; lia.
Qed.

(** Exchanging two entries of a list permutes it. *)
Lemma insert_cons_Permutation {A} (l : list A) (j : nat) (x b : A) :
  l !! j = Some b → b :: <[j := x]> l ≡ₚ x :: l.
Proof.
  revert j. induction l as [|y l IH]; intros [|j] Hj; simplify_eq/=.
  - apply perm_swap.
  - rewrite perm_swap, (IH j Hj). apply perm_swap.
Qed.

Lemma swap_Permutation {A} (l : list A) (i j : nat) (a b : A) :
  l !! i = Some a → l !! j = Some b →
  <[j := a]> (<[i := b]> l) ≡ₚ l.
Proof.
  revert i j. induction l as [|y l IH]; intros [|i] [|j] Hi Hj;
    simplify_eq/=; try done.
  - by apply insert_cons_Permutation.
  - symmetry. rewrite <- (insert_cons_Permutation l i b a Hi). done.
  - by rewrite (IH i j).
Qed.

Section randkfrom_call.
Context `{Externals}.

Lemma wp_iterate_ref (l : loc) (vs : list val) w Q :
  heap w !! l = Some (OList vs) → Q (Ok vs) w → wp (iterate (VRef l)) w Q.
Proof. intros Hl HQ. unfold iterate, load_list. wp_steps. exact HQ. Qed.

Lemma wp_shuffle_from (x : loc) (i : nat) (vs : list val) w Q :
  heap w !! x = Some (OList vs) → (i < length vs ∨ i = 0)%nat →
  (∀ vs' ent, vs' ≡ₚ vs →
     Q (Ok ()) {| heap := <[x := OList vs']> (heap w); next := next w;
                  entropy := ent |}) →
  wp (shuffle_from x i) w Q.
Proof.
  revert vs w. induction i as [|i IH]; intros vs w Hx Hi HQ.
  - simpl. apply wp_ret. specialize (HQ vs (entropy w) (reflexivity _)).
    rewrite insert_id in HQ by done. by destruct w.
  - destruct Hi as [Hi|]; [|done].
    cbn [shuffle_from]. wp_steps. unfold load_list. wp_steps.
    set (j := N.to_nat (entropy w 0%nat `mod` N.of_nat (S (S i)))).
    assert (j < S (S i))%nat as Hj.
    { unfold j. pose proof (N.mod_upper_bound (entropy w 0%nat)
                              (N.of_nat (S (S i)))). lia. }
    destruct (lookup_lt_is_Some_2 vs (S i) Hi) as [a Ha].
    destruct (lookup_lt_is_Some_2 vs j ltac:(lia)) as [b Hb].
    rewrite Ha, Hb. wp_steps.
    eapply IH.
    + by heap_lookup.
    + left. rewrite !length_insert. lia.
    + intros vs' ent Hperm. cbn [heap next entropy].
      rewrite insert_insert_eq. apply HQ.
      rewrite Hperm. by apply swap_Permutation.
Qed.

Lemma wp_random_shuffle (x : loc) (vs : list val) w Q :
  heap w !! x = Some (OList vs) →
  (∀ vs' ent, vs' ≡ₚ vs →
     Q (Ok ()) {| heap := <[x := OList vs']> (heap w); next := next w;
                  entropy := ent |}) →
  wp (random_shuffle (VRef x)) w Q.
Proof.
  intros Hx HQ. unfold random_shuffle, as_ref, load_list. wp_steps.
  eapply wp_shuffle_from; [exact Hx| |exact HQ].
  destruct vs; simpl; lia.
Qed.

(** [1 + RandInt(len(self.range))()]: one raw outcome [raw] is consumed
    and the value is [1 + raw mod (len + 1)]. *)
Lemma wp_random_k self vs k rep w Q :
  RandKFrom_instance w self vs k rep →
  (∀ w', later 1 w w' →
     Q (Ok (VInt (1 + Z.of_N (entropy w 0%nat)
                        `mod` (Z.of_nat (length vs) + 1)))) w') →
  wp (RandKFrom.random_k self) w Q.
Proof.
  intros (attrs & lt & lr & Hs & Hself & Hth & Hr & Hk & Hrep & Hlt & Hd
          & Hlr & Hvs & Hkv) HQ.
  unfold RandKFrom.random_k.
  wp_apply wp_getattr_own; [exact Hself|exact Hr|].
  unfold iterate, load_list. wp_steps.
  wp_apply wp_RandInt_make. unfold as_ref. wp_steps.
  wp_apply (wp_RandInt_call (next w) (S (next w)) 0 (Z.of_nat (length vs)));
    [lia|lia|by heap_lookup|by heap_lookup|lia|].
  unfold py_add, arith. cbn [as_Z]. wp_steps.
  rewrite Z.sub_0_r, Z.add_0_l. apply HQ. split; [|done].
  split; cbn [heap next]; [lia|]. intros l Hl.
  by rewrite !lookup_insert_ne by lia.
Qed.

(** The first statement of [__call__]: [k = self.k or (1 + ...)]. *)
Lemma wp_call_k self vs k rep w Q :
  RandKFrom_instance w self vs k rep →
  (∀ w' kk, preserves w w' →
     (k = VInt kk ∧ kk ≠ 0 ∨
      (k = VNone ∨ k = VInt 0) ∧ 1 ≤ kk ≤ Z.of_nat (length vs) + 1) →
     Q (Ok (VInt kk)) w') →
  wp (RandKFrom.k_or_random self) w Q.
Proof.
  intros Hinst HQ. unfold RandKFrom.k_or_random.
  pose proof Hinst as (attrs & lt & lr & Hs & Hself & Hth & Hr & Hk & Hrep
                       & Hlt & Hd & Hlr & Hvs & Hkv).
  wp_apply wp_getattr_own; [exact Hself|exact Hk|].
  destruct Hkv as [->|[z ->]]; unfold truthy; wp_steps.
  - wp_apply wp_random_k; [exact Hinst|]. intros w' [Hw' _]. apply HQ.
    + done.
    + right. split; [by left|].
      pose proof (Z.mod_pos_bound (Z.of_N (entropy w 0%nat))
                    (Z.of_nat (length vs) + 1)). lia.
  - destruct (z =? 0) eqn:Hz; cbn [negb].
    + apply Z.eqb_eq in Hz as ->.
      wp_apply wp_random_k; [exact Hinst|]. intros w' [Hw' _]. apply HQ.
      * done.
      * right. split; [by right|].
        pose proof (Z.mod_pos_bound (Z.of_N (entropy w 0%nat))
                      (Z.of_nat (length vs) + 1)). lia.
    + wp_steps. apply HQ; [apply preserves_refl|]. left. split; [done|lia].
Qed.

(** Calling with a shape or a nonzero count. *)
Lemma RandKFrom_call_raises self vs k rep n w :
  RandKFrom_instance w self vs k rep →
  is_shape n || count_truthy n = true →
  (RandKFrom.__call__ self n w).1 = Raise ValueError.
Proof.
  intros Hinst Hn.
  assert (wp (RandKFrom.__call__ self n) w (λ r _, r = Raise ValueError))
    as Hwp; [|exact Hwp].
  unfold RandKFrom.__call__.
  wp_apply wp_call_k; [exact Hinst|]. intros w' kk _ _.
  rewrite Hn. by wp_steps.
Qed.

(** Calling without a count a sampler that does not replace: the result
    is a new list, the first [kk] entries of a permutation of the
    candidates. *)
Lemma wp_RandKFrom_call_norep self vs k n w Q :
  RandKFrom_instance w self vs k false →
  is_shape n || count_truthy n = false →
  (∀ w' l vs' kk,
     preserves w w' → (next w ≤ l)%nat → vs' ≡ₚ vs →
     heap w' !! l = Some (OList (getslice (Slice None (Some kk)) vs')) →
     (k = VInt kk ∧ kk ≠ 0 ∨
      (k = VNone ∨ k = VInt 0) ∧ 1 ≤ kk ≤ Z.of_nat (length vs) + 1) →
     Q (Ok (VRef l)) w') →
  wp (RandKFrom.__call__ self n) w Q.
Proof.
  intros Hinst Hn HQ. unfold RandKFrom.__call__.
  wp_apply wp_call_k; [exact Hinst|]. intros w' kk Hw' Hkk.
  pose proof (RandKFrom_instance_preserved _ _ _ _ _ _ Hinst Hw')
    as (attrs & lt & lr & Hs & Hself & Hth & Hr & Hk & Hrep & Hlt & Hd
        & Hlr & Hvs & Hkv).
  rewrite Hn. wp_steps.
  wp_apply wp_getattr_own; [exact Hself|exact Hrep|].
  unfold truthy. wp_steps. cbn [negb].
  wp_apply wp_getattr_own; [exact Hself|exact Hr|].
  wp_apply wp_iterate_ref; [exact Hvs|].
  unfold new_list. wp_steps.
  wp_apply wp_random_shuffle; [by heap_lookup|].
  intros vs' ent Hperm. cbn [heap next entropy].
  wp_apply wp_iterate_ref; [by heap_lookup|].
  unfold bound_of_val. wp_steps.
  destruct Hw' as [Hnext Hkeep].
  eapply (HQ _ _ vs' kk); cbn [heap next]; try done.
  - split; cbn [heap next]; [lia|]. intros l Hl.
    rewrite !lookup_insert_ne by lia. by apply Hkeep.
  - lia.
  - by heap_lookup.
Qed.

Lemma wp_call_RandKFrom self vs k rep n w Q :
  RandKFrom_instance w self vs k rep →
  wp (RandKFrom.__call__ self n) w Q →
  wp (call (VRef self) n) w Q.
Proof.
  intros (attrs & lt & lr & Hs & Hself & _) Hwp.
  unfold call, as_ref. wp_steps. exact Hwp.
Qed.

End randkfrom_call.

(** The entries [l[:k]] selects, for [k >= 0]. *)
Lemma getslice_prefix {A} (l : list A) (k : Z) :
  0 ≤ k → getslice (Slice None (Some k)) l = take (Z.to_nat k) l.
Proof.
  intros Hk. unfold getslice, slice_indices, clamp_index. simpl.
  assert ((k <? 0) = false) as -> by lia. simpl.
  rewrite Z.sub_0_r.
  destruct (decide (k ≤ Z.of_nat (length l))).
  - by rewrite Z.min_l by done.
  - rewrite Z.min_r, Nat2Z.id by lia. change (Z.to_nat 0) with 0%nat.
    rewrite drop_0, !take_ge; [done|lia..].
Qed.

Lemma getslice_submseteq {A} (s : slice) (l : list A) :
  getslice s l ⊆+ l.
Proof.
  unfold getslice. destruct (slice_indices s _) as [lo hi].
  etrans; [apply sublist_submseteq, sublist_take|].
  apply sublist_submseteq, sublist_drop.
Qed.

(** ** The selection size of [RandKFrom] *)

Lemma random_k_value `{Externals} self vs k rep w :
  RandKFrom_instance w self vs k rep →
  (RandKFrom.random_k self w).1 =
  Ok (VInt (1 + Z.of_N (entropy w 0%nat) `mod` (Z.of_nat (length vs) + 1))).
Proof.
  intros Hinst.
  assert (wp (RandKFrom.random_k self) w (λ r _, r =
    Ok (VInt (1 + Z.of_N (entropy w 0%nat) `mod` (Z.of_nat (length vs) + 1)))))
    as Hwp; [|exact Hwp].
  eapply wp_random_k; [exact Hinst|]. done.
Qed.

(** For [m] candidates the drawn size takes the value [m + 1] whenever the
    raw outcome is [m] modulo [m + 1]. *)
Lemma random_k_overshoots `{Externals} self vs k rep w :
  RandKFrom_instance w self vs k rep →
  entropy w 0%nat = N.of_nat (length vs) →
  (RandKFrom.random_k self w).1 = Ok (VInt (Z.of_nat (length vs) + 1)).
Proof.
  intros Hinst Hraw. rewrite (random_k_value self vs k rep w Hinst), Hraw.
  rewrite nat_N_Z, Z.mod_small by lia. do 2 f_equal. lia.
Qed.

(** C6, at a failing input: for [RandKFrom([7])] with [k] omitted and the
    raw outcome 1, the drawn selection size is 2, outside [{1}]; over the
    raw outcomes 0, 1 and 2 the draws are 1, 2, 1. *)
Theorem random_k_exceeds_candidates :
  let sampler := RandKFrom.make (H := spec_externals)
                   (VTuple [VInt 7]) VNone (VBool false) in
  let drawn raw :=
    ((s ← sampler; self ← as_ref s;
      RandKFrom.random_k (H := spec_externals) self)
       (initial_world (λ _, raw))).1 in
  drawn 1%N = Ok (VInt 2) ∧ drawn <$> [0; 1; 2]%N = Ok ∘ VInt <$> [1; 2; 1].
Proof. split; vm_compute; reflexivity. Qed.

(** ** Calling [RandKFrom] with a count *)

(** C8, as amended: calling a [RandKFrom] sampler with [n] a list or tuple,
    or with [n] a nonzero integer, raises [ValueError]; calling it with
    [n] absent or 0 when it was built with [replacement=False] returns a
    new list holding a selection from the candidates. *)
Theorem RandKFrom_call_count `{Externals}
    (w : world) (self : loc) (vs : list val) (k : val) (rep : bool)
    (n : count) :
  RandKFrom_instance w self vs k rep →
  match n with
  | Shape _ => (call (VRef self) n w).1 = Raise ValueError
  | Count z =>
      if decide (z = 0)
      then rep = false → returns_selection (call (VRef self) n) w vs
      else (call (VRef self) n w).1 = Raise ValueError
  | NoCount => rep = false → returns_selection (call (VRef self) n) w vs
  end.
Proof.
  intros Hinst.
  assert (is_shape n || count_truthy n = true →
          (call (VRef self) n w).1 = Raise ValueError) as Hraise.
  { intros Hn.
    assert (wp (call (VRef self) n) w (λ r _, r = Raise ValueError))
      as Hwp; [|exact Hwp].
    eapply wp_call_RandKFrom; [exact Hinst|].
    apply (RandKFrom_call_raises self vs k rep n w Hinst Hn). }
  assert (is_shape n || count_truthy n = false → rep = false →
          returns_selection (call (VRef self) n) w vs) as Hsel.
  { intros Hn ->.
    assert (wp (call (VRef self) n) w (λ r w',
      ∃ l sel, r = Ok (VRef l) ∧ heap w' !! l = Some (OList sel) ∧
               sel ⊆+ vs)) as Hwp; [|exact Hwp].
    eapply wp_call_RandKFrom; [exact Hinst|].
    eapply wp_RandKFrom_call_norep; [exact Hinst|exact Hn|].
    intros w' l vs' kk _ _ Hperm Hl _. eexists _, _.
    split_and!; [done|exact Hl|].
    rewrite <- Hperm. apply getslice_submseteq. }
  destruct n as [|z|dims].
  - by apply Hsel.
  - destruct (decide (z = 0)) as [->|Hz]; [by apply Hsel|].
    apply Hraise. simpl. apply negb_true_iff. lia.
  - by apply Hraise.
Qed.

Lemma RandKFrom_call_count_witness :
  RandKFrom_instance
    (RandKFrom.make (H := spec_externals)
       (VTuple [VInt 7; VInt 8]) (VInt 1) (VBool false)
       (initial_world (λ _, 0%N))).2
    0%nat [VInt 7; VInt 8] (VInt 1) false ∧
  (call (H := spec_externals) (VRef 0%nat) (Count 3)
     (RandKFrom.make (H := spec_externals)
        (VTuple [VInt 7; VInt 8]) (VInt 1) (VBool false)
        (initial_world (λ _, 0%N))).2).1 = Raise ValueError.
Proof.
  assert (RandKFrom_instance
    (RandKFrom.make (H := spec_externals)
       (VTuple [VInt 7; VInt 8]) (VInt 1) (VBool false)
       (initial_world (λ _, 0%N))).2
    0%nat [VInt 7; VInt 8] (VInt 1) false) as Hinst.
  { exists (<["replacement" := VBool false]>
              (<["k" := VInt 1]>
                 (<["range" := VRef 2%nat]> {[ "theta" := VRef 1%nat ]}))),
      1%nat, 2%nat.
    split_and!; try (vm_compute; reflexivity); try (vm_compute; lia).
    right. by exists 1. }
  split; [exact Hinst|].
  exact (RandKFrom_call_count (H := spec_externals) _ 0%nat
           [VInt 7; VInt 8] (VInt 1) false (Count 3) Hinst).
Defined.

(** A count of 0 is not [None], and the call returns a selection: here
    the list [[8]] for the candidates [[7, 8]] with [k = 1]. *)
Lemma RandKFrom_call_zero_count :
  let called :=
    (s ← RandKFrom.make (H := spec_externals)
           (VTuple [VInt 7; VInt 8]) (VInt 1) (VBool false);
     call (H := spec_externals) s (Count 0))
      (initial_world (λ _, 0%N)) in
  called.1 = Ok (VRef 4%nat) ∧ heap called.2 !! 4%nat = Some (OList [VInt 8]) ∧
  called.1 ≠ Raise ValueError.
Proof. vm_compute. split_and!; done. Qed.

Lemma config_errors_at_construction_witness :
  (Uniform.make (H := spec_externals) [] {[ "min" := VInt 1 ]}
     (initial_world (λ _, 0%N))).1 = Raise ValueError ∧
  (RandInt.make (H := spec_externals) [] ∅
     (initial_world (λ _, 0%N))).1 = Raise ValueError ∧
  (RandKFrom.make (H := spec_externals)
     (VTuple [VInt 7; VInt 8]) (VInt 3) (VBool false)
     (initial_world (λ _, 0%N))).1 = Raise ValueError.
Proof.
  destruct (config_errors_at_construction (H := spec_externals))
    as (HU & HR & HK).
  split_and!.
  - apply HU; [simpl; lia|simpl; lia|reflexivity].
  - apply HR; [simpl; lia|simpl; lia|reflexivity].
  - apply (HK _ 3 [VInt 7; VInt 8]); [reflexivity|simpl; lia].
Defined.

(** ** Random flips *)

Lemma seqZ_axes_range (ndim a : Z) :
  a ∈ seqZ (- ndim) (0 - - ndim) → - ndim ≤ a ≤ -1.
Proof. rewrite elem_of_seqZ. lia. Qed.

(** C10: for a tensor with [x.dim() >= 2], the [FlipTransform] that
    [RandomFlipTransform.get_parameters] builds when [axis=None] carries a
    new list of axes that is nonempty, has no repeated entry, and whose
    entries all lie in [-(x.dim() - 1) .. -1]; the channel axis, which is
    axis [0] or [-x.dim()], is never among them. *)
Theorem random_flip_axes `{Externals} (xdim : Z) (w : world) :
  2 ≤ xdim →
  ∃ (l : loc) (axes : list Z),
    (RandomFlipTransform.get_parameters
       (RandomFlipTransform.__init__ VNone) xdim w).1
      = Ok {| FlipTransform.axis := VRef l |} ∧
    heap (RandomFlipTransform.get_parameters
            (RandomFlipTransform.__init__ VNone) xdim w).2 !! l
      = Some (OList (VInt <$> axes)) ∧
    axes ≠ [] ∧ NoDup axes ∧
    Forall (λ a, - (xdim - 1) ≤ a ≤ -1 ∧ a ≠ 0 ∧ a ≠ - xdim) axes.
Proof.
  intros Hdim.
  assert (wp (RandomFlipTransform.get_parameters
                (RandomFlipTransform.__init__ VNone) xdim) w
            (λ r w', ∃ l axes,
               r = Ok {| FlipTransform.axis := VRef l |} ∧
               heap w' !! l = Some (OList (VInt <$> axes)) ∧
               axes ≠ [] ∧ NoDup axes ∧
               Forall (λ a, - (xdim - 1) ≤ a ≤ -1 ∧ a ≠ 0 ∧ a ≠ - xdim)
                 axes)) as Hwp; [|exact Hwp].
  unfold RandomFlipTransform.get_parameters, RandomFlipTransform.__init__.
  cbn [RandomFlipTransform.sample]. rewrite lookup_singleton_eq.
  set (zs := seqZ (- (xdim - 1)) (0 - - (xdim - 1))).
  wp_apply (wp_RandKFrom_make _ _ _ (VInt <$> zs)); [done|by left|].
  intros w1 Hw1 _ Hinst. wp_steps.
  rewrite insert_singleton_eq, map_to_list_singleton. cbn [mapM].
  pose proof Hinst as (attrs & lt & lr & Hs & Hself & _).
  unfold callable. wp_steps.
  wp_apply wp_call_RandKFrom; [exact Hinst|].
  eapply wp_RandKFrom_call_norep; [exact Hinst|done|].
  intros w2 l vs' kk _ _ Hperm Hl [[[=] _]|[_ Hkk]].
  wp_steps. rewrite bool_decide_eq_true_2 by done. wp_steps.
  apply Permutation_map_inv in Hperm as (zs' & -> & Hzs).
  rewrite getslice_prefix, <- fmap_take in Hl by lia.
  exists l, (take (Z.to_nat kk) zs'). split_and!; [done|exact Hl| | |].
  - assert (length zs' = Z.to_nat (xdim - 1)) as Hlen.
    { rewrite <- Hzs. unfold zs. rewrite length_seqZ. lia. }
    destruct zs' as [|z zs']; [simpl in Hlen; lia|].
    destruct (Z.to_nat kk) eqn:Hk; [lia|done].
  - eapply sublist_NoDup; [|apply sublist_take].
    rewrite <- Hzs. apply NoDup_seqZ.
  - apply Forall_take, Forall_forall. intros a Ha.
    rewrite <- Hzs in Ha. apply seqZ_axes_range in Ha. lia.
Qed.

Lemma random_flip_axes_witness :
  2 ≤ 3 ∧
  ∃ (l : loc) (axes : list Z),
    (RandomFlipTransform.get_parameters (H := spec_externals)
       (RandomFlipTransform.__init__ VNone) 3 (initial_world (λ _, 5%N))).1
      = Ok {| FlipTransform.axis := VRef l |} ∧
    heap (RandomFlipTransform.get_parameters (H := spec_externals)
            (RandomFlipTransform.__init__ VNone) 3
            (initial_world (λ _, 5%N))).2 !! l
      = Some (OList (VInt <$> axes)) ∧
    axes ≠ [] ∧ NoDup axes ∧
    Forall (λ a, - (3 - 1) ≤ a ≤ -1 ∧ a ≠ 0 ∧ a ≠ - 3) axes.
Proof.
  split; [lia|].
  apply (random_flip_axes (H := spec_externals) 3 (initial_world (λ _, 5%N))).
  lia.
Defined.

(** ** Power-of-two padding *)

(** What the comprehension computes on every axis: [max(2 ** extent,
    exponent)], the two loop variables being bound the other way round. *)
Lemma power_two_parameters_lookup (self : PowerTwoTransform.t)
    (xshape : list Z) (i : nat) (e sv : Z) :
  ensure_list (PowerTwoTransform.exponent self)
    (Some (length (spatial xshape))) !! i = Some e →
  spatial xshape !! i = Some sv →
  PowerTwoTransform.get_parameters self xshape !! i = Some (Z.max (2 ^ sv) e).
Proof.
  intros He Hsv. unfold PowerTwoTransform.get_parameters.
  by rewrite lookup_zip_with, He, Hsv.
Qed.

(** C2, at a failing input: with [exponent=3] and extent 10 the target
    size is [max(2 ** 10, 3) = 1024], neither [max(2 ** 3, 10)] nor 16, and
    the centred patch of that size pads 508 and 506 voxels around the 10
    of the source; with extent 2 the target is 4, not a multiple of 8. *)
Theorem power_two_exponent3_extent10 :
  let self := {| PowerTwoTransform.exponent := Scalar 3;
                 PowerTwoTransform.bound := "dct2" |} in
  PowerTwoTransform.get_parameters self [1; 10] = [1024] ∧
  PatchTransform.get_parameters (PowerTwoTransform.patch self [1024]) [1; 10]
    = ([Slice (Some 0) (Some 10)], [508; 506]) ∧
  PowerTwoTransform.get_parameters self [1; 2] = [4].
Proof. split_and!; reflexivity. Qed.

(** ** Cropping and padding by amounts *)

(** With [side=None] the amounts are replaced by [2 * ndim - len] zeros:
    for the [2 * ndim] amounts of a two-sided specification nothing is
    left, whatever the amounts are. *)
Lemma crop_two_sided_slices (amounts : list number) (unit : string)
    (pct : bool) (xshape : list Z) :
  is_pct unit = Ok pct →
  length amounts = (2 * ndim_of xshape)%nat →
  CropTransform.slices
    {| CropTransform.cropping := Seq amounts; CropTransform.unit := unit;
       CropTransform.side := None |} xshape = Ok [].
Proof.
  intros Hpct Hlen. unfold CropTransform.slices. simpl.
  rewrite Hpct, Hlen.
  replace (Z.to_nat (2 * Z.of_nat (ndim_of xshape)
                     - Z.of_nat (2 * ndim_of xshape))) with 0%nat by lia.
  simpl. by destruct pct.
Qed.

Lemma pad_two_sided_amounts (amounts : list number) (unit : string)
    (pct : bool) (bound : string) (value : Q) (xshape : list Z) :
  is_pct unit = Ok pct →
  length amounts = (2 * ndim_of xshape)%nat →
  PadTransform.amounts
    {| PadTransform.padding := Seq amounts; PadTransform.unit := unit;
       PadTransform.side := None; PadTransform.bound := bound;
       PadTransform.value := value |} xshape = Ok [].
Proof.
  intros Hpct Hlen. unfold PadTransform.amounts. simpl.
  rewrite Hpct, Hlen.
  replace (Z.to_nat (2 * Z.of_nat (ndim_of xshape)
                     - Z.of_nat (2 * ndim_of xshape))) with 0%nat by lia.
  simpl. by destruct pct.
Qed.

(** C3, at a failing input: for a tensor of shape [(1, 5)] and the
    two-sided amounts [[1, 2]] with [side=None] and [unit='vox'],
    [CropTransform] builds no slice and returns all 5 voxels (not the 2
    left after removing 1 in front and 2 at the back), and [PadTransform]
    hands the empty list to the boundary-extension primitive. *)
Theorem two_sided_amounts_dropped `{Boundary} (entries : list Z → Q) :
  let x := {| tshape := [1; 5]; tat := entries |} in
  let crop := {| CropTransform.cropping := Seq [Int 1; Int 2];
                 CropTransform.unit := "vox";
                 CropTransform.side := None |} in
  let padding := {| PadTransform.padding := Seq [Int 1; Int 2];
                    PadTransform.unit := "vox";
                    PadTransform.side := None;
                    PadTransform.bound := "dct2";
                    PadTransform.value := 0%Q |} in
  CropTransform.slices crop (tshape x) = Ok [] ∧
  (∃ y, CropTransform.apply_transform crop x = Ok y ∧ tshape y = [1; 5]) ∧
  PadTransform.amounts padding (tshape x) = Ok [] ∧
  (∃ y, PadTransform.apply_transform padding x = Ok y ∧ tshape y = [1; 5]).
Proof.
  split_and!; [reflexivity| |reflexivity|]; eexists; split; reflexivity.
Qed.

(** C4, at a failing input: padding a tensor of shape [(1, 3)] by 1 voxel
    on the side ['pre'] gives extent 4, and cropping by 1 on the side
    ['pre'] then removes a voxel at both ends: extent 2, not 3.  The same
    happens for ['post'].  The slice [slice(c, -c)] that [CropTransform]
    builds does not depend on the side. *)
Theorem pad_crop_one_sided_shrinks `{Boundary} (entries : list Z → Q) :
  let x := {| tshape := [1; 3]; tat := entries |} in
  (∃ y, pad_then_crop 1 "pre" x = Ok y ∧ tshape y = [1; 2]) ∧
  (∃ y, pad_then_crop 1 "post" x = Ok y ∧ tshape y = [1; 2]) ∧
  (∃ y, pad_then_crop 1 "both" x = Ok y ∧ tshape y = [1; 3]) ∧
  CropTransform.slices
    {| CropTransform.cropping := Scalar (Int 1); CropTransform.unit := "vox";
       CropTransform.side := Some "pre" |} [1; 4]
  = Ok [Slice (Some 1) (Some (-1))].
Proof.
  split_and!; [| | |reflexivity]; eexists; split; reflexivity.
Qed.

(** ** Random patches *)

Section random_patch.
Context `{Externals}.

Lemma wp_Uniform_make (a b : Q) w Q :
Q (Ok (VRef (next w)))
  {| heap := <[next w := OInst CUniform {[ "theta" := VRef (S (next w)) ]}]>
               (<[S (next w) :=
                    ODict (<["max" := VFloat b]> {[ "min" := VFloat a ]})]>
                  (<[next w := OInst CUniform ∅]> (heap w)));
     next := S (S (next w));
     entropy := entropy w |} →
wp (Uniform.make [VFloat a; VFloat b] ∅) w Q.
Proof.
intros HQ. unfold Uniform.make, Sampler.new. wp_steps.
unfold Uniform.__init__. rewrite !lookup_empty. cbn [default from_option].
wp_apply wp_Sampler_init; [lia|by heap_lookup|].
wp_steps. rewrite insert_empty. exact HQ.
Qed.

(** [Uniform(a, b)()] returns [a + (b - a) * u] for the next unit draw
    [u]. *)
Lemma wp_Uniform_call (self lt : loc) (a b : Q) w Q :
(self < next w)%nat → (lt < next w)%nat →
heap w !! self = Some (OInst CUniform {[ "theta" := VRef lt ]}) →
heap w !! lt = Some (ODict (<["max" := VFloat b]> {[ "min" := VFloat a ]})) →
(∀ w', preserves w w' →
   Q (Ok (VFloat (a + (b - a)
                        * (Z.of_N (entropy w 0%nat mod 2 ^ 53) # 2 ^ 53))%Q))
     w') →
wp (Uniform.__call__ self NoCount) w Q.
Proof.
intros Hself Hlt Hinst Hd HQ. unfold Uniform.__call__.
wp_apply wp_getattr_theta;
  [exact Hinst|done|done|done|exact Hd| |by apply bounds_plain|].
{ by rewrite lookup_insert_ne, lookup_singleton_eq. }
wp_apply wp_getattr_theta;
  [by heap_lookup|done|done|lia|by heap_lookup| |by apply bounds_plain|].
{ by rewrite lookup_insert_eq. }
unfold Sampler.map. cbn [count_int nonzero]. wp_steps.
unfold is_list. wp_steps. unfold random_uniform. cbn [as_Q].
unfold random_random. wp_steps. apply HQ.
split; cbn [heap next]; [lia|]. intros l Hl.
by rewrite !lookup_insert_ne by lia.
Qed.

(** A patch as large as the source: the centre range is the single point 0
    and every draw is 0. *)
Lemma random_patch_full_center (bound : string) (s : Z) w :
0 < s →
∃ c, (RandomPatchTransform.get_parameters
        {| RandomPatchTransform.patch_size := Scalar s;
           RandomPatchTransform.bound := bound |} [1; s] w).1
     = Ok ([s], [VFloat c]) ∧ (c == 0)%Q.
Proof.
intros Hs.
assert (wp (RandomPatchTransform.get_parameters
              {| RandomPatchTransform.patch_size := Scalar s;
                 RandomPatchTransform.bound := bound |} [1; s]) w
          (λ r _, ∃ c, r = Ok ([s], [VFloat c]) ∧ (c == 0)%Q))
  as Hwp; [|exact Hwp].
unfold RandomPatchTransform.get_parameters. cbn.
assert ((s =? 0) = false) as -> by lia.
assert (inject_Z s / inject_Z s == 1)%Q as Hdiv.
{ unfold Qdiv. apply Qmult_inv_r.
  intros Hz. unfold Qeq in Hz. simpl in Hz. lia. }
assert (float_max_int (inject_Z s / inject_Z s - 1) (-1)
        = VFloat (inject_Z s / inject_Z s - 1)) as ->.
{ unfold float_max_int.
  assert (Qle_bool (inject_Z (-1)) (inject_Z s / inject_Z s - 1) = true)
    as ->; [|done].
  apply Qle_bool_iff. rewrite Hdiv. done. }
assert (float_min_int (1 - inject_Z s / inject_Z s) 1
        = VFloat (1 - inject_Z s / inject_Z s)) as ->.
{ unfold float_min_int.
  assert (Qle_bool (1 - inject_Z s / inject_Z s) (inject_Z 1) = true)
    as ->; [|done].
  apply Qle_bool_iff. rewrite Hdiv. done. }
wp_steps. cbn [zip zip_with mapM]. wp_steps. wp_apply wp_Uniform_make.
unfold call, as_ref. wp_steps.
wp_apply (wp_Uniform_call (next w) (S (next w)));
  [lia|lia|by heap_lookup|by heap_lookup|].
intros w' _. wp_steps. eexists. split; [done|].
rewrite Hdiv. ring.
Qed.

End random_patch.

(** The patch resolution for a centre equal to 0 up to the representation
    of the rational: extent [s], requested extent [s]. *)
Lemma patch_full_center_zero (bound : string) (s : Z) (c : Q) :
0 < s → (c == 0)%Q →
PatchTransform.get_parameters
  {| PatchTransform.shape := Seq [s]; PatchTransform.center := Seq [c];
     PatchTransform.bound := bound |} [1; s]
= ([Slice (Some 0) (Some (s - 1))], [1; 0]).
Proof.
intros Hs Hc. unfold PatchTransform.get_parameters.
cbn -[Qfloor PatchTransform.voxel_center Qminus Qdiv Z.max Z.min inject_Z].
assert (Qfloor (PatchTransform.voxel_center c s - inject_Z s / 2) = -1)
  as ->.
{ unfold PatchTransform.voxel_center.
  assert ((c + 1) / 2 * inject_Z (s - 1) - inject_Z s / 2 == - (1 # 2))%Q
    as ->.
  { rewrite Hc. unfold Zminus. rewrite inject_Z_plus. simpl inject_Z.
    change (inject_Z (- (1))) with (- (1))%Q. field. }
  reflexivity. }
repeat f_equal; lia.
Qed.

(** C5, at a failing input: for a source of extent 4 and a patch of size 4
    (no larger than the source) the one centre that
    [RandomPatchTransform.get_parameters] can draw is 0, and
    [PatchTransform] resolves it to the slice [0:3] with one voxel of
    padding in front: the patch is not inside the source.  The same holds
    for every extent [s >= 1] with patch size [s]. *)
Theorem random_patch_pads `{Externals} (w : world) :
∃ c, (RandomPatchTransform.get_parameters
        {| RandomPatchTransform.patch_size := Scalar 4;
           RandomPatchTransform.bound := "dct2" |} [1; 4] w).1
     = Ok ([4], [VFloat c]) ∧
     RandomPatchTransform.patch
       {| RandomPatchTransform.patch_size := Scalar 4;
          RandomPatchTransform.bound := "dct2" |} ([4], [VFloat c])
     = Ok {| PatchTransform.shape := Seq [4];
             PatchTransform.center := Seq [c];
             PatchTransform.bound := "dct2" |} ∧
     PatchTransform.get_parameters
       {| PatchTransform.shape := Seq [4];
          PatchTransform.center := Seq [c];
          PatchTransform.bound := "dct2" |} [1; 4]
     = ([Slice (Some 0) (Some 3)], [1; 0]).
Proof.
destruct (random_patch_full_center "dct2" 4 w) as (c & Hc & Hc0); [lia|].
exists c. split_and!; [exact Hc|reflexivity|].
by apply (patch_full_center_zero "dct2" 4 c).
Qed.
(** ** Further properties of [fov.py] *)

Lemma ensure_list_scalar {A} (a : A) (n : nat) :
  ensure_list (Scalar a) (Some n) = replicate n a.
Proof.
  unfold ensure_list. simpl. destruct n as [|n]; [done|].
  simpl. by rewrite Nat.sub_0_r, take_ge by (by rewrite length_replicate).
Qed.

Lemma zip_with_replicate_l {A B C} (f : A → B → C) (a : A) (l : list B) :
  zip_with f (replicate (length l) a) l = f a <$> l.
Proof. induction l as [|b l IH]; simpl; [done|by rewrite IH]. Qed.

(** X1. For a scalar exponent [e], [PowerTwoTransform.get_parameters]
    returns on every spatial axis of extent [s] the target
    [max(2 ** s, e)]: the comprehension raises 2 to the extent and
    compares with the exponent. *)
Theorem power_two_parameters_swapped (e chan : Z) (shape : list Z)
    (bound : string) :
  PowerTwoTransform.get_parameters
    {| PowerTwoTransform.exponent := Scalar e;
       PowerTwoTransform.bound := bound |} (chan :: shape)
  = (λ s, Z.max (2 ^ s) e) <$> shape.
Proof.
  unfold PowerTwoTransform.get_parameters. cbn [spatial tail
    PowerTwoTransform.exponent].
  rewrite ensure_list_scalar.
  by rewrite (zip_with_replicate_l (λ s e0, Z.max (2 ^ e0) s)).
Qed.

Lemma Qfloor_half (a : Z) : Qfloor (inject_Z a / 2) = a `div` 2.
Proof.
  assert (inject_Z a / 2 == a # 2)%Q as ->; [|done].
  unfold Qeq, inject_Z, Qdiv, Qmult, Qinv. simpl. lia.
Qed.

(** X3. A centred patch (centre 0) strictly smaller than the source on an
    axis lies inside it: the slice starts at [(sv - ss - 1) // 2], has
    exactly the requested extent and both padding amounts are 0. *)
Theorem centered_patch_inside (self : PatchTransform.t) (xshape : list Z)
    (i : nat) (ss : Z) (c : Q) (sv : Z) :
  ensure_list (PatchTransform.shape self) (Some (ndim_of xshape)) !! i
    = Some ss →
  ensure_list (PatchTransform.center self) (Some (ndim_of xshape)) !! i
    = Some c →
  spatial xshape !! i = Some sv →
  (c == 0)%Q → 0 < ss → ss < sv →
  let first := (sv - ss - 1) `div` 2 in
  (PatchTransform.get_parameters self xshape).1 !! i
    = Some (Slice (Some first) (Some (first + ss))) ∧
  (PatchTransform.get_parameters self xshape).2 !! (2 * i)%nat = Some 0 ∧
  (PatchTransform.get_parameters self xshape).2 !! (2 * i + 1)%nat = Some 0 ∧
  0 ≤ first ∧ first + ss ≤ sv.
Proof.
  intros Hshape Hcenter Hsize Hc Hss Hsv first.
  unfold PatchTransform.get_parameters.
  set (cc := PatchTransform.voxel_center c sv).
  assert (zip_with PatchTransform.voxel_center
            (ensure_list (PatchTransform.center self) (Some (ndim_of xshape)))
            (spatial xshape) !! i = Some cc) as Hcc.
  { rewrite lookup_zip_with, Hcenter, Hsize. done. }
  pose proof (resolve_lookup _ _ _ i ss cc sv Hshape Hcc Hsize) as Hres.
  cbv zeta in Hres.
  destruct (PatchTransform.resolve _ _ _) as [crop padding].
  destruct Hres as (Hcrop & Hp1 & Hp2).
  set (f0 := Qfloor (cc - inject_Z ss / 2)) in *.
  assert (f0 = first) as Hf.
  { unfold f0, first. rewrite <- Qfloor_half. apply Qfloor_comp.
    unfold cc, PatchTransform.voxel_center. rewrite Hc.
    replace (sv - ss - 1) with ((sv - 1) + - ss) by lia.
    rewrite inject_Z_plus, inject_Z_opp. field. }
  clearbody f0. subst f0.
  assert (0 ≤ first) by (unfold first; apply Z.div_pos; lia).
  assert (first + ss ≤ sv).
  { unfold first.
    pose proof (Z.mul_div_le (sv - ss - 1) 2 eq_refl). lia. }
  cbn [fst snd]. rewrite Hcrop, Hp1, Hp2.
  repeat split; try done; repeat f_equal; lia.
Qed.

Lemma centered_patch_inside_witness :
  (PatchTransform.get_parameters PatchTransform.default [1; 100; 65]).1
    !! 1%nat = Some (Slice (Some 0) (Some (0 + 64))) ∧
  (PatchTransform.get_parameters PatchTransform.default [1; 100; 65]).2
    !! (2 * 1)%nat = Some 0 ∧
  (PatchTransform.get_parameters PatchTransform.default [1; 100; 65]).2
    !! (2 * 1 + 1)%nat = Some 0 ∧
  0 ≤ 0 ∧ 0 + 64 ≤ 65.
Proof.
  apply (centered_patch_inside PatchTransform.default [1; 100; 65] 1 64 0%Q
           65); try reflexivity; lia.
Defined.

Lemma Qfloor_below (x : Q) (z : Z) : (x < inject_Z (z + 1))%Q → Qfloor x ≤ z.
Proof.
  intros H. pose proof (Qfloor_le x) as Hle.
  assert (inject_Z (Qfloor x) < inject_Z (z + 1))%Q as Hlt
    by (eapply Qle_lt_trans; eauto).
  rewrite <- Zlt_Qlt in Hlt. lia.
Qed.

(** The unclamped first index for a centre in the range
    [RandomPatchTransform] draws from. *)
Lemma random_center_first (p s : Z) (c : Q) :
  0 < p → p ≤ s →
  (inject_Z p / inject_Z s - 1 <= c)%Q →
  (c <= 1 - inject_Z p / inject_Z s)%Q →
  -1 ≤ Qfloor (PatchTransform.voxel_center c s - inject_Z p / 2) ≤ s - p - 1.
Proof.
  intros Hp Hs Hlo Hhi. unfold PatchTransform.voxel_center.
  assert (0 < inject_Z s)%Q as Hs0.
  { change 0%Q with (inject_Z 0). rewrite <- Zlt_Qlt. lia. }
  assert (inject_Z p == inject_Z p / inject_Z s * inject_Z s)%Q as Hps.
  { field. intros Hz. rewrite Hz in Hs0. by apply Qlt_irrefl in Hs0. }
  assert (0 < inject_Z p / inject_Z s)%Q as Ht0.
  { apply Qlt_shift_div_l; [done|]. rewrite Qmult_0_l.
    change 0%Q with (inject_Z 0). rewrite <- Zlt_Qlt. lia. }
  assert (inject_Z p / inject_Z s <= 1)%Q as Ht1.
  { apply Qle_shift_div_r; [done|]. rewrite Qmult_1_l.
    rewrite <- Zle_Qle. lia. }
  assert (1 <= inject_Z s)%Q as Hs1.
  { change 1%Q with (inject_Z 1). rewrite <- Zle_Qle. lia. }
  replace (s - 1) with (s + - (1)) by lia.
  rewrite inject_Z_plus, inject_Z_opp. change (inject_Z 1) with 1%Q.
  split.
  - apply Qfloor_lower. change (inject_Z (-1)) with (- (1))%Q.
    rewrite !Qhalf.
    set (t := (inject_Z p / inject_Z s)%Q) in *.
    set (n := inject_Z s) in *. set (q := inject_Z p) in *.
    clearbody t n q. rewrite Hps. nra.
  - apply Qfloor_below.
    replace (s - p - 1 + 1) with (s + - p) by lia.
    rewrite inject_Z_plus, inject_Z_opp. rewrite !Qhalf.
    set (t := (inject_Z p / inject_Z s)%Q) in *.
    set (n := inject_Z s) in *. set (q := inject_Z p) in *.
    clearbody t n q. rewrite Hps. nra.
Qed.

(** ** [Uniform] draws and the random patch *)

Lemma unit_draw_range (r : N) :
  (0 <= Z.of_N (r mod 2 ^ 53) # 2 ^ 53)%Q ∧
  (Z.of_N (r mod 2 ^ 53) # 2 ^ 53 < 1)%Q.
Proof.
  assert (r mod 2 ^ 53 < 2 ^ 53)%N as Hlt by (by apply N.mod_lt).
  unfold Qle, Qlt. cbn [Qnum Qden].
  change (Z.pos (2 ^ 53)) with (Z.of_N (2 ^ 53)).
  generalize dependent (r mod 2 ^ 53)%N. generalize (2 ^ 53)%N.
  intros m x Hx. split; lia.
Qed.

Lemma wp_mapM {A B} (f : A → M B) (P : A → B → Prop) (l : list A) w Q :
  (∀ a w Q', a ∈ l →
     (∀ b w', P a b → Q' (Ok b) w') → wp (f a) w Q') →
  (∀ bs w', Forall2 P l bs → Q (Ok bs) w') →
  wp (mapM f l) w Q.
Proof.
  revert w Q. induction l as [|a l IH]; intros w Q Hf HQ; simpl.
  - apply wp_ret, HQ. constructor.
  - apply wp_bind, Hf; [left|]. intros b w1 Hb. cbn beta iota.
    apply wp_bind, IH.
    + intros a' w' Q' Ha'. apply Hf. by right.
    + intros bs w2 Hbs. cbn beta iota. apply wp_ret, HQ. by constructor.
Qed.

Section uniform_draw.
Context `{Externals}.

(** [Uniform(a, b)()] for floats [a <= b]: a float between the bounds. *)
Lemma wp_Uniform_draw (a b : Q) w Q :
  (a <= b)%Q →
  (∀ c w', (a <= c)%Q → (c <= b)%Q → Q (Ok (VFloat c)) w') →
  wp (Uniform.make [VFloat a; VFloat b] ∅ ≫= λ sampler, call sampler NoCount)
    w Q.
Proof.
  intros Hab HQ. wp_apply wp_Uniform_make.
  unfold call, as_ref. wp_steps.
  wp_apply (wp_Uniform_call (next w) (S (next w)));
    [lia|lia|by heap_lookup|by heap_lookup|].
  intros w' _.
  destruct (unit_draw_range (entropy w 0%nat)) as [H0 H1].
  set (u := (Z.of_N (entropy w 0%nat mod 2 ^ 53) # 2 ^ 53)%Q) in *.
  clearbody u. apply HQ; nra.
Qed.

End uniform_draw.

Lemma mapM_pure {A B} (f : A → M B) (g : A → B) (l : list A) w :
  (∀ a, a ∈ l → ∀ w, f a w = (Ok (g a), w)) →
  mapM f l w = (Ok (g <$> l), w).
Proof.
  induction l as [|a l IH]; intros Hf; simpl; [done|].
  rewrite (run_bind_ok _ _ w w (g a)) by (apply Hf; left).
  rewrite (run_bind_ok _ _ w w (g <$> l)); [done|].
  apply IH. intros a' Ha'. apply Hf. by right.
Qed.

Lemma ensure_list_seq_id {A} (l : list A) :
  ensure_list (Seq l) (Some (length l)) = l.
Proof.
  unfold ensure_list. destruct (last l) as [d|] eqn:Hd.
  - by rewrite Nat.sub_diag, app_nil_r, firstn_all.
  - by apply last_None in Hd.
Qed.

Lemma mapR_as_Q_floats (cs : list Q) :
  mapR (λ c, match as_Q c with Some q => Ok q | None => Raise TypeError end)
    (VFloat <$> cs) = Ok cs.
Proof.
  induction cs as [|c cs IH]; [done|].
  rewrite fmap_cons. cbn [mapR as_Q]. by rewrite IH.
Qed.

Lemma ratio_range (p s : Z) :
  0 < p → p ≤ s →
  (0 < inject_Z p / inject_Z s)%Q ∧ (inject_Z p / inject_Z s <= 1)%Q.
Proof.
  intros Hp Hs.
  assert (0 < inject_Z s)%Q as Hs0.
  { change 0%Q with (inject_Z 0). rewrite <- Zlt_Qlt. lia. }
  split.
  - apply Qlt_shift_div_l; [done|]. rewrite Qmult_0_l.
    change 0%Q with (inject_Z 0). rewrite <- Zlt_Qlt. lia.
  - apply Qle_shift_div_r; [done|]. rewrite Qmult_1_l.
    rewrite <- Zle_Qle. lia.
Qed.

Section random_patch_range.
Context `{Externals}.

Lemma wp_centers (l : list (Z * Z)) w Q :
  Forall (λ '(p, s), 0 < p ∧ p ≤ s) l →
  (∀ cs w',
     Forall2 (λ '(p, s) c,
       (inject_Z p / inject_Z s - 1 <= c)%Q ∧
       (c <= 1 - inject_Z p / inject_Z s)%Q) l cs →
     Q (Ok (VFloat <$> cs)) w') →
  wp (mapM (λ '(mn, mx),
        sampler ← Uniform.make [mn; mx] ∅; call sampler NoCount)
        (zip ((λ '(p, s), VFloat (inject_Z p / inject_Z s - 1)) <$> l)
             ((λ '(p, s), VFloat (1 - inject_Z p / inject_Z s)) <$> l)))
     w Q.
Proof.
  revert w Q. induction l as [|[p s] l IH]; intros w Q Hl HQ; simpl.
  - apply wp_ret. apply (HQ []). constructor.
  - apply Forall_cons in Hl as [Hps Hl']. cbn beta iota in Hps.
    destruct Hps as [Hp Hs].
    destruct (ratio_range p s Hp Hs) as [Ht0 Ht1].
    apply wp_bind, wp_Uniform_draw; [lra|].
    intros c w1 Hlo Hhi. cbn beta iota.
    apply wp_bind, IH; [done|]. intros cs w2 Hcs. cbn beta iota.
    apply wp_ret. apply (HQ (c :: cs)). by constructor.
Qed.

(** X4. Whenever the patch is no larger than the source on every axis,
    [RandomPatchTransform.get_parameters] returns the patch sizes and one
    float centre per axis, and [PatchTransform] resolves every axis to a
    window that never reaches past the end of the source (no padding
    behind, the last voxel excluded) and overhangs it in front by at most
    one voxel. *)
Theorem random_patch_overhang (self : RandomPatchTransform.t)
    (xshape : list Z) (w : world) :
  let ps := ensure_list (RandomPatchTransform.patch_size self)
              (Some (length (spatial xshape))) in
  Forall2 (λ p s, 0 < p ∧ p ≤ s) ps (spatial xshape) →
  ∃ cs,
    (RandomPatchTransform.get_parameters self xshape w).1
      = Ok (ps, VFloat <$> cs) ∧
    RandomPatchTransform.patch self (ps, VFloat <$> cs)
      = Ok {| PatchTransform.shape := Seq ps;
              PatchTransform.center := Seq cs;
              PatchTransform.bound := RandomPatchTransform.bound self |} ∧
    ∀ i p s, ps !! i = Some p → spatial xshape !! i = Some s →
      ∃ first,
        (PatchTransform.get_parameters
           {| PatchTransform.shape := Seq ps;
              PatchTransform.center := Seq cs;
              PatchTransform.bound := RandomPatchTransform.bound self |}
           xshape).1 !! i
          = Some (Slice (Some (Z.max 0 first)) (Some (first + p))) ∧
        (PatchTransform.get_parameters
           {| PatchTransform.shape := Seq ps;
              PatchTransform.center := Seq cs;
              PatchTransform.bound := RandomPatchTransform.bound self |}
           xshape).2 !! (2 * i)%nat = Some (Z.max 0 (- first)) ∧
        (PatchTransform.get_parameters
           {| PatchTransform.shape := Seq ps;
              PatchTransform.center := Seq cs;
              PatchTransform.bound := RandomPatchTransform.bound self |}
           xshape).2 !! (2 * i + 1)%nat = Some 0 ∧
        -1 ≤ first ∧ first + p ≤ s - 1.
Proof.
  intros ps Hfit.
  set (l := zip ps (spatial xshape)).
  assert (Forall (λ '(p, s), 0 < p ∧ p ≤ s) l) as Hl.
  { unfold l. clear -Hfit. induction Hfit; simpl; constructor; done. }
  assert (wp (RandomPatchTransform.get_parameters self xshape) w
            (λ r _, ∃ cs, r = Ok (ps, VFloat <$> cs) ∧
               Forall2 (λ '(p, s) c,
                 (inject_Z p / inject_Z s - 1 <= c)%Q ∧
                 (c <= 1 - inject_Z p / inject_Z s)%Q) l cs)) as Hwp.
  { unfold RandomPatchTransform.get_parameters. cbv zeta. fold ps. fold l.
    apply wp_bind.
    eapply wp_run.
    { apply (mapM_pure _
        (λ '(p, s), VFloat (inject_Z p / inject_Z s - 1))).
      intros [p s] Hin w0.
      rewrite Forall_forall in Hl. destruct (Hl _ Hin) as [Hp Hs].
      assert ((s =? 0) = false) as -> by lia.
      destruct (ratio_range p s Hp Hs) as [Ht0 Ht1].
      unfold float_max_int.
      assert (Qle_bool (inject_Z (-1)) (inject_Z p / inject_Z s - 1) = true)
        as ->; [|done].
      apply Qle_bool_iff. change (inject_Z (-1)) with (- (1))%Q. lra. }
    cbn beta iota. apply wp_bind.
    eapply wp_run.
    { apply (mapM_pure _
        (λ '(p, s), VFloat (1 - inject_Z p / inject_Z s))).
      intros [p s] Hin w0.
      rewrite Forall_forall in Hl. destruct (Hl _ Hin) as [Hp Hs].
      assert ((s =? 0) = false) as -> by lia.
      destruct (ratio_range p s Hp Hs) as [Ht0 Ht1].
      unfold float_min_int.
      assert (Qle_bool (1 - inject_Z p / inject_Z s) (inject_Z 1) = true)
        as ->; [|done].
      apply Qle_bool_iff. change (inject_Z 1) with 1%Q. lra. }
    cbn beta iota. apply wp_bind, wp_centers; [done|].
    intros cs w' Hcs. cbn beta iota. apply wp_ret. eauto. }
  destruct Hwp as (cs & Hr & Hcs). exists cs.
  split; [exact Hr|]. split.
  { unfold RandomPatchTransform.patch. cbn [fst snd].
    by rewrite mapR_as_Q_floats. }
  intros i p s Hp Hs.
  assert (length ps = length (spatial xshape)) as Hlen
    by (by eapply Forall2_length).
  assert (ndim_of xshape = length (spatial xshape)) as Hn.
  { unfold spatial, ndim_of. destruct xshape; simpl; lia. }
  assert (length cs = length (spatial xshape)) as Hclen.
  { apply Forall2_length in Hcs. unfold l in Hcs.
    rewrite length_zip in Hcs. lia. }
  assert (l !! i = Some (p, s)) as Hli.
  { unfold l. by rewrite lookup_zip_with, Hp, Hs. }
  destruct (Forall2_lookup_l _ _ _ _ _ Hcs Hli) as (c & Hc & Hlo & Hhi).
  rewrite Forall_lookup in Hl. destruct (Hl _ _ Hli) as [Hp0 Hps].
  pose proof (random_center_first p s c Hp0 Hps Hlo Hhi) as Hfirst.
  unfold PatchTransform.get_parameters.
  cbn [PatchTransform.shape PatchTransform.center].
  replace (ensure_list (Seq ps) (Some (ndim_of xshape))) with ps
    by (by rewrite Hn, <- Hlen, ensure_list_seq_id).
  replace (ensure_list (Seq cs) (Some (ndim_of xshape))) with cs
    by (by rewrite Hn, <- Hclen, ensure_list_seq_id).
  set (cc := PatchTransform.voxel_center c s) in *.
  assert (zip_with PatchTransform.voxel_center cs (spatial xshape) !! i
          = Some cc) as Hcc.
  { rewrite lookup_zip_with, Hc, Hs. done. }
  pose proof (resolve_lookup _ _ _ i p cc s Hp Hcc Hs) as Hres.
  cbv zeta in Hres.
  set (first := Qfloor (cc - inject_Z p / 2)) in *. clearbody first.
  destruct (PatchTransform.resolve _ _ _) as [crop padding].
  destruct Hres as (Hcrop & Hp1 & Hp2).
  exists first. cbn [fst snd]. rewrite Hcrop, Hp1, Hp2.
  repeat split; try done; try lia; repeat f_equal; lia.
Qed.

End random_patch_range.

(** ** Cropping and padding amounts *)

Lemma evens_odds_Forall {A} (P : A → Prop) (l : list A) :
  Forall P l → Forall P (evens l) ∧ Forall P (odds l).
Proof.
  intros Hl.
  assert ((Forall P (evens l) ∧ Forall P (odds l)) ∧
          ∀ a, P a → Forall P (evens (a :: l)) ∧ Forall P (odds (a :: l)))
    as [? _]; [|done].
  induction Hl as [|b l Hb Hl [IH1 IH2]].
  - split; [by split|]. intros a Ha. split; by repeat constructor.
  - split; [by apply IH2|]. intros a Ha. simpl.
    destruct IH1 as [? ?]. split; by constructor.
Qed.

Lemma odds_length {A} (l : list A) : (2 * length (odds l) ≤ length l)%nat.
Proof.
  assert ((2 * length (odds l) ≤ length l)%nat ∧
          ∀ a : A, (2 * length (odds (a :: l)) ≤ S (length l))%nat)
    as [? _]; [|done].
  induction l as [|b l [IH1 IH2]].
  - split; [simpl; lia|]. intros a. simpl. lia.
  - split; [apply IH2|]. intros a. simpl in *. lia.
Qed.

Lemma mapR_as_index_zeros (l : list number) :
  Forall (λ c, c = Int 0) l →
  ∃ cs, mapR as_index l = Ok cs ∧ Forall (λ c, c = 0) cs ∧
        length cs = length l.
Proof.
  induction 1 as [|c l -> Hl (cs & Hcs & Hz & Hlen)].
  - by exists [].
  - exists (0 :: cs). simpl. rewrite Hcs. simpl.
    repeat split; [by constructor|lia].
Qed.

Lemma shape2_length (xshape : list Z) :
  length (shape2 xshape) = (2 * ndim_of xshape)%nat.
Proof.
  unfold shape2, spatial, ndim_of. destruct xshape as [|c shape]; [done|].
  simpl. rewrite Nat.sub_0_r.
  induction shape as [|s shape IH]; [done|].
  rewrite bind_cons, length_app, IH. simpl. lia.
Qed.

(** The amounts both transforms compute when [side] is [None]: the list
    given by the user only contributes its length. *)
Lemma two_sided_zeros (amounts : arg number) (unit : string)
    (xshape : list Z) (pct : bool) :
  let given := ensure_list amounts None in
  let zeros :=
    replicate (Z.to_nat (2 * Z.of_nat (ndim_of xshape)
                         - Z.of_nat (length given))) (Int 0) in
  let used :=
    if pct then Int <$> zip_with ceil_mul zeros (shape2 xshape) else zeros in
  Forall (λ c, c = Int 0) used ∧
  length used = (2 * ndim_of xshape - length given)%nat.
Proof.
  intros given zeros used.
  assert (length zeros = (2 * ndim_of xshape - length given)%nat) as Hlen
    by (unfold zeros; rewrite length_replicate; lia).
  unfold used. destruct pct.
  - split.
    + apply Forall_fmap, Forall_forall. intros z Hz. simpl.
      apply elem_of_lookup_zip_with in Hz as (i & c & s & -> & Hc & _).
      unfold zeros in Hc. apply lookup_replicate in Hc as [-> _].
      done.
    + rewrite length_fmap, length_zip_with, shape2_length. lia.
  - split; [|done]. unfold zeros. apply Forall_replicate. done.
Qed.

Lemma is_pct_nonempty (unit : string) :
  unit ≠ "" → ∃ pct, is_pct unit = Ok pct.
Proof. destruct unit; [done|]. intros _. by eexists. Qed.

(** X6. With [side=None], [PadTransform] hands only zeros to the
    boundary-extension primitive, whatever amounts were configured:
    [2 * ndim - len(padding)] of them. *)
Theorem pad_two_sided_zero (self : PadTransform.t) (xshape : list Z) :
  PadTransform.side self = None → PadTransform.unit self ≠ "" →
  ∃ amounts,
    PadTransform.amounts self xshape = Ok amounts ∧
    Forall (λ a, a = 0) amounts ∧
    length amounts
      = (2 * ndim_of xshape
         - length (ensure_list (PadTransform.padding self) None))%nat.
Proof.
  intros Hside Hunit. unfold PadTransform.amounts. rewrite Hside.
  destruct (is_pct_nonempty _ Hunit) as [pct ->].
  cbv beta iota delta [mbind result_bind].
  destruct (two_sided_zeros (PadTransform.padding self)
              (PadTransform.unit self) xshape pct) as [Hz Hlen].
  cbv zeta in Hz, Hlen.
  destruct (mapR_as_index_zeros _ Hz) as (cs & Hcs & Hcz & Hclen).
  exists cs. rewrite Hclen, <- Hlen. split_and!; [|done..].
  destruct pct; exact Hcs.
Qed.

Lemma pad_two_sided_zero_witness :
  ∃ amounts,
    PadTransform.amounts
      {| PadTransform.padding := Seq [Int 1; Int 2];
         PadTransform.unit := "vox"; PadTransform.side := None;
         PadTransform.bound := "dct2"; PadTransform.value := 0%Q |}
      [1; 5; 5] = Ok amounts ∧
    Forall (λ a, a = 0) amounts ∧
    length amounts = (2 * ndim_of [1; 5; 5]%Z - 2)%nat.
Proof.
  apply (pad_two_sided_zero
           {| PadTransform.padding := Seq [Int 1; Int 2];
              PadTransform.unit := "vox"; PadTransform.side := None;
              PadTransform.bound := "dct2"; PadTransform.value := 0%Q |}
           [1; 5; 5]); [reflexivity|done].
Defined.

(** ** Cropping *)

Lemma slice_length_whole (s : slice) (n : Z) :
  0 ≤ n → start s = None ∨ start s = Some 0 → stop s = None →
  slice_length s n = n ∧ (slice_indices s n).1 = 0.
Proof.
  intros Hn Hs He. unfold slice_length, slice_indices. rewrite He.
  destruct Hs as [-> | ->]; simpl; unfold clamp_index; simpl; split; lia.
Qed.

Lemma getitem_whole (slices : list slice) (x : tensor) :
  Forall (λ s, 0 ≤ s) (tshape x) →
  Forall (λ s, (start s = None ∨ start s = Some 0) ∧ stop s = None) slices →
  (length slices ≤ dim x)%nat →
  ∃ y, getitem_ellipsis slices x = Ok y ∧ tensor_eq y x.
Proof.
  intros Hx Hs Hlen. unfold getitem_ellipsis.
  rewrite bool_decide_eq_true_2 by done. eexists. split; [done|].
  set (all := replicate (dim x - length slices) (Slice None None) ++ slices).
  assert (Forall (λ s, (start s = None ∨ start s = Some 0) ∧ stop s = None)
            all) as Hall.
  { apply Forall_app. split; [|done]. apply Forall_replicate. auto. }
  assert (length all = length (tshape x)) as Hal.
  { unfold all. rewrite length_app, length_replicate. unfold dim in *. lia. }
  clearbody all. unfold tensor_eq. cbn [tshape tat].
  assert (zip_with slice_length all (tshape x) = tshape x ∧
          ∀ idx, length idx = length (tshape x) →
            zip_with Z.add idx
              (zip_with (λ s n, (slice_indices s n).1) all (tshape x)) = idx)
    as [Hshape Hidx].
  { revert all Hall Hal. induction Hx as [|n shape Hn Hx IH];
      intros [|s all] Hall Hal; try done.
    - split; [done|]. by intros [|].
    - apply Forall_cons in Hall as [[Hs1 Hs2] Hall].
      destruct (IH all Hall) as [IH1 IH2]; [simpl in Hal; lia|].
      destruct (slice_length_whole s n Hn Hs1 Hs2) as [Hl H0].
      split.
      + cbn [zip_with]. by rewrite Hl, IH1.
      + intros [|i idx] Hi; [done|]. cbn [zip_with]. rewrite H0, IH2.
        * f_equal. lia.
        * simpl in Hi. lia. }
  split; [done|]. intros idx Hin. rewrite Hshape in Hin.
  unfold inside in Hin. apply andb_prop in Hin as [Hin _].
  apply bool_decide_eq_true in Hin. by rewrite Hidx.
Qed.

(** X5. With [side=None], [CropTransform] crops nothing: whatever amounts
    were configured, the slices it builds are all [slice(0, None)] and
    the tensor comes back unchanged. *)
Theorem crop_two_sided_keeps (self : CropTransform.t) (x : tensor) :
  CropTransform.side self = None → CropTransform.unit self ≠ "" →
  Forall (λ s, 0 ≤ s) (tshape x) →
  ∃ y, CropTransform.apply_transform self x = Ok y ∧ tensor_eq y x.
Proof.
  intros Hside Hunit Hx.
  unfold CropTransform.apply_transform, CropTransform.slices.
  rewrite Hside.
  destruct (is_pct_nonempty _ Hunit) as [pct ->].
  cbv beta iota delta [mbind result_bind].
  destruct (two_sided_zeros (CropTransform.cropping self)
              (CropTransform.unit self) (tshape x) pct) as [Hz Hlen].
  cbv zeta in Hz, Hlen.
  destruct (mapR_as_index_zeros _ Hz) as (cs & Hcs & Hcz & Hclen).
  assert (mapR as_index
            (if pct
             then Int <$> zip_with ceil_mul
               (replicate (Z.to_nat (2 * Z.of_nat (ndim_of (tshape x))
                  - Z.of_nat (length (ensure_list
                      (CropTransform.cropping self) None)))) (Int 0))
               (shape2 (tshape x))
             else replicate (Z.to_nat (2 * Z.of_nat (ndim_of (tshape x))
                  - Z.of_nat (length (ensure_list
                      (CropTransform.cropping self) None)))) (Int 0))
          = Ok cs) as -> by (destruct pct; exact Hcs).
  apply getitem_whole; [done| |].
  - destruct (evens_odds_Forall _ _ Hcz) as [He Ho].
    apply Forall_forall. intros s Hs.
    apply elem_of_lookup_zip_with in Hs as (i & c0 & c1 & -> & Hc0 & Hc1).
    rewrite Forall_lookup in He, Ho.
    rewrite (He _ _ Hc0), (Ho _ _ Hc1). simpl. auto.
  - rewrite length_zip_with. pose proof (odds_length cs) as Ho.
    unfold dim, ndim_of in *. lia.
Qed.

Lemma crop_two_sided_keeps_witness :
  ∃ y, CropTransform.apply_transform
         {| CropTransform.cropping := Seq [Int 1; Int 2];
            CropTransform.unit := "vox"; CropTransform.side := None |}
         {| tshape := [1; 5]; tat := λ _, 0%Q |} = Ok y ∧
       tensor_eq y {| tshape := [1; 5]; tat := λ _, 0%Q |}.
Proof.
  apply (crop_two_sided_keeps
           {| CropTransform.cropping := Seq [Int 1; Int 2];
              CropTransform.unit := "vox"; CropTransform.side := None |}
           {| tshape := [1; 5]; tat := λ _, 0%Q |});
    [reflexivity|done|].
  simpl. repeat constructor; lia.
Defined.

Lemma crop_slice_indices (c n : Z) :
  0 ≤ c → 2 * c ≤ n →
  slice_length (crop_slice c c) n = n - 2 * c ∧
  (slice_indices (crop_slice c c) n).1 = c.
Proof.
  intros Hc Hn. unfold crop_slice, slice_length, slice_indices.
  destruct (c =? 0) eqn:Hc0; simpl; unfold clamp_index;
    repeat case_match; split; lia.
Qed.

Lemma mapR_as_index_ints (n : nat) (c : Z) :
  mapR as_index (replicate n (Int c)) = Ok (replicate n c).
Proof. induction n as [|n IH]; simpl; [done|]. by rewrite IH. Qed.

(** The slices of a one-sided crop by [c] voxels: the same on every
    spatial axis, for every side. *)
Lemma crop_one_sided_slices (self : CropTransform.t) (sd : string) (c : Z)
    (xshape : list Z) :
  CropTransform.side self = Some sd →
  CropTransform.cropping self = Scalar (Int c) →
  is_pct (CropTransform.unit self) = Ok false →
  CropTransform.slices self xshape
  = Ok (replicate (ndim_of xshape) (crop_slice c c)).
Proof.
  intros Hside Hc Hu. unfold CropTransform.slices.
  rewrite Hside, Hc, Hu. cbv beta iota delta [mbind result_bind].
  rewrite ensure_list_scalar, mapR_as_index_ints.
  by rewrite fmap_replicate.
Qed.

Lemma getitem_crop (c chan : Z) (shape : list Z) (x : tensor) :
  tshape x = chan :: shape → 0 ≤ chan → 0 ≤ c →
  Forall (λ s, 2 * c ≤ s) shape →
  ∃ y, getitem_ellipsis (replicate (length shape) (crop_slice c c)) x = Ok y ∧
       tshape y = chan :: ((λ s, s - 2 * c) <$> shape) ∧
       ∀ idx, tat y idx
              = tat x (zip_with Z.add idx (0 :: replicate (length shape) c)).
Proof.
  intros Hx Hchan Hc Hs. unfold getitem_ellipsis, dim. rewrite Hx.
  rewrite length_replicate. cbn [length].
  rewrite bool_decide_eq_true_2 by lia.
  replace (S (length shape) - length shape)%nat with 1%nat by lia.
  eexists. split; [done|]. cbn [tshape tat replicate app zip_with].
  destruct (slice_length_whole (Slice None None) chan Hchan) as [-> ->];
    [by left|done|].
  assert (zip_with slice_length (replicate (length shape) (crop_slice c c))
            shape = (λ s, s - 2 * c) <$> shape ∧
          zip_with (λ s n, (slice_indices s n).1)
            (replicate (length shape) (crop_slice c c)) shape
          = replicate (length shape) c) as [-> ->]; [|done].
  clear Hx. induction Hs as [|s shape Hs Hshape [IH1 IH2]]; [done|].
  destruct (crop_slice_indices c s Hc Hs) as [Hl H0].
  cbn [length replicate zip_with fmap list_fmap].
  rewrite Hl, H0. split; f_equal; [exact IH1|exact IH2].
Qed.

(** X7. A one-sided [CropTransform] by [c] voxels removes [c] voxels at
    both ends of every spatial axis whichever [side] is configured: each
    spatial extent [s >= 2 c] becomes [s - 2 c], the channel axis is
    kept, and the entry at a position is the source entry [c] voxels
    further on every spatial axis. *)
Theorem crop_one_sided_both_ends (self : CropTransform.t) (sd : string)
    (c chan : Z) (shape : list Z) (x : tensor) :
  CropTransform.side self = Some sd →
  CropTransform.cropping self = Scalar (Int c) →
  is_pct (CropTransform.unit self) = Ok false →
  tshape x = chan :: shape → 0 ≤ chan → 0 ≤ c →
  Forall (λ s, 2 * c ≤ s) shape →
  ∃ y, CropTransform.apply_transform self x = Ok y ∧
       tshape y = chan :: ((λ s, s - 2 * c) <$> shape) ∧
       ∀ idx, tat y idx
              = tat x (zip_with Z.add idx (0 :: replicate (length shape) c)).
Proof.
  intros Hside Hcrop Hu Hx Hchan Hc Hs.
  unfold CropTransform.apply_transform.
  rewrite (crop_one_sided_slices self sd c) by done.
  cbv beta iota delta [mbind result_bind].
  rewrite Hx. unfold ndim_of. cbn [length].
  replace (S (length shape) - 1)%nat with (length shape) by lia.
  by apply getitem_crop.
Qed.

Lemma crop_one_sided_both_ends_witness :
  ∃ y, CropTransform.apply_transform
         {| CropTransform.cropping := Scalar (Int 1);
            CropTransform.unit := "vox"; CropTransform.side := Some "pre" |}
         {| tshape := [1; 5]; tat := λ idx, inject_Z (default 0 (idx !! 1%nat)) |}
       = Ok y ∧
       tshape y = 1 :: ((λ s, s - 2 * 1) <$> [5]) ∧
       ∀ idx, tat y idx
              = inject_Z (default 0
                  (zip_with Z.add idx (0 :: replicate (length [5]) 1)
                     !! 1%nat)).
Proof.
  apply (crop_one_sided_both_ends
           {| CropTransform.cropping := Scalar (Int 1);
              CropTransform.unit := "vox";
              CropTransform.side := Some "pre" |} "pre" 1 1 [5]
           {| tshape := [1; 5];
              tat := λ idx, inject_Z (default 0 (idx !! 1%nat)) |});
    try reflexivity; try lia.
  repeat constructor; lia.
Defined.

(** ** Padding, then cropping *)

Lemma unshift_index (idx : list Z) (k : nat) (p : Z) :
  length idx = S k →
  zip_with (λ i '(a, _), i - a)
    (zip_with Z.add idx (0 :: replicate k p))
    ((0, 0) :: replicate k (p, p)) = idx.
Proof.
  destruct idx as [|i idx]; [done|]. intros Hlen. cbn [zip_with replicate].
  f_equal; [lia|]. simpl in Hlen. assert (length idx = k) as Hk by lia.
  clear Hlen. revert k Hk. induction idx as [|j idx IH]; intros [|k] Hk;
    try done.
  cbn [zip_with replicate]. f_equal; [lia|]. apply IH. simpl in Hk. lia.
Qed.

(** X8. Padding by [p >= 0] voxels on both sides and cropping by [p] on
    both sides gives the tensor back, for every boundary rule. *)
Theorem pad_crop_both_round_trip `{Boundary} (p chan : Z) (shape : list Z)
    (x : tensor) :
  tshape x = chan :: shape → 0 ≤ chan → Forall (λ s, 0 ≤ s) shape → 0 ≤ p →
  ∃ y, pad_then_crop p "both" x = Ok y ∧ tensor_eq y x.
Proof.
  intros Hx Hchan Hshape Hp. unfold pad_then_crop.
  unfold PadTransform.apply_transform, PadTransform.amounts.
  cbn [PadTransform.side PadTransform.padding PadTransform.unit
       PadTransform.bound PadTransform.value is_pct].
  cbv beta iota delta [mbind result_bind].
  rewrite bool_decide_eq_false_2 by done.
  rewrite ensure_list_scalar, mapR_as_index_ints.
  unfold pad, pad_sides. rewrite bool_decide_eq_true_2 by done.
  cbv beta iota delta [mbind result_bind].
  rewrite fmap_replicate, length_replicate.
  rewrite Hx. unfold ndim_of, dim. rewrite Hx. cbn [length].
  replace (S (length shape) - 1)%nat with (length shape) by lia.
  rewrite bool_decide_eq_true_2 by lia.
  replace (S (length shape) - length shape)%nat with 1%nat by lia.
  cbn [replicate app zip_with].
  set (y := {| tshape := _; tat := _ |}).
  assert (zip_with (λ s '(a, b), s + a + b) shape
            (replicate (length shape) (p, p))
          = (λ s, s + 2 * p) <$> shape) as Hpad.
  { clear. induction shape as [|s shape IH]; [done|].
    cbn [length replicate zip_with]. rewrite IH, fmap_cons.
    f_equal. lia. }
  assert (tshape y = chan :: ((λ s, s + 2 * p) <$> shape)) as Hy.
  { unfold y. cbn [tshape]. rewrite Hpad. f_equal. lia. }
  unfold CropTransform.apply_transform.
  rewrite (crop_one_sided_slices _ "both" p) by done.
  cbv beta iota delta [mbind result_bind].
  rewrite Hy. unfold ndim_of. cbn [length]. rewrite length_fmap.
  replace (S (length shape) - 1)%nat with (length shape) by lia.
  destruct (getitem_crop p chan ((λ s, s + 2 * p) <$> shape) y)
    as (z & Hz & Hzs & Hzt); [done..| |].
  { apply Forall_fmap. eapply Forall_impl; [exact Hshape|].
    intros s Hs. unfold compose. cbn beta in *. lia. }
  rewrite length_fmap in Hz, Hzt. exists z. split; [exact Hz|].
  assert (tshape z = tshape x) as Hzx.
  { rewrite Hzs, Hx, <- list_fmap_compose. f_equal.
    rewrite <- (list_fmap_id shape) at 2. apply list_fmap_ext.
    intros _ s _. unfold compose, id. cbn beta. lia. }
  split; [done|]. intros idx Hin. rewrite Hzt. unfold y. cbn [tat].
  rewrite Hzx in Hin. pose proof Hin as Hlen.
  unfold inside in Hlen. apply andb_prop in Hlen as [Hlen _].
  apply bool_decide_eq_true in Hlen. rewrite Hx in Hlen. simpl in Hlen.
  rewrite unshift_index by done. rewrite Hx in Hin. by rewrite Hin.
Qed.

Lemma pad_crop_both_round_trip_witness :
  ∃ y, pad_then_crop (H := λ _ _ _ _, 0%Q) 2 "both"
         {| tshape := [1; 3]; tat := λ _, 1%Q |} = Ok y ∧
       tensor_eq y {| tshape := [1; 3]; tat := λ _, 1%Q |}.
Proof.
  apply (pad_crop_both_round_trip (H := λ _ _ _ _, 0%Q) 2 1 [3]
           {| tshape := [1; 3]; tat := λ _, 1%Q |});
    try reflexivity; try lia.
  repeat constructor; lia.
Defined.
